(** * Engine resolution and connection lifecycle of the Firebolt Python SDK

    A shallow embedding of [firebolt/async_db/connection.py] and of the
    [account_id] property of [firebolt/client/client.py], with the
    properties of their specification stated over it.

    Python objects become Rocq data, HTTP traffic is an explicit transport
    function together with a log of the requests that were sent, and
    exceptions are values of the type [exn] threaded through a small
    state-and-error monad. *)

From Stdlib Require Import ZArith String List Bool Lia.
From stdpp Require Import base option list gmap strings.
Import ListNotations.

Local Open Scope string_scope.
Local Open Scope Z_scope.

(** * Part I: the program *)

(** ** Exceptions *)

(** Modelled from the spec: the classes of [firebolt.common.exception]
    ([ConfigurationError], [ConnectionClosedError], [FireboltDatabaseError],
    [FireboltEngineError], [InterfaceError], [AccountNotFoundError]) are
    declared outside the files at hand; the error taxonomy of the spec lists
    them as separate kinds, none of them a [RuntimeError], a [KeyError] or
    an [httpx] error. The other constructors are the classes of [httpx],
    [json] and the builtins, kept apart as far as the [except] clauses of
    the source tell them apart. *)
Inductive exn : Type :=
| ConfigurationError (msg : string)
| ConnectionClosedError (msg : string)
| FireboltDatabaseError (msg : string)
| FireboltEngineError (msg : string)
| InterfaceError (msg : string) (cause : exn)
| AccountNotFoundError (account : option string)
| AuthenticationError (msg : string)
| HTTPStatusError (status : Z)
| RequestError (msg : string)
| JSONDecodeError
| RuntimeError (msg : string)
| KeyError (key : string)
| TypeError
| AttributeError
| AssertionError
| ValueError.

(** Outcome of a Python call: an exception or a value. *)
Definition result (A : Type) : Type := exn + A.

(** ** JSON values as Python sees them *)

(** The object returned by [response.json()]: [None], [bool], [int], [str],
    [list] or [dict] with string keys. *)
#[local] Unset Elimination Schemes.
Inductive json : Type :=
| JNull
| JBool (b : bool)
| JNum (n : Z)
| JStr (s : string)
| JArr (items : list json)
| JObj (fields : gmap string json).
#[local] Set Elimination Schemes.

(** Python truthiness, as used by [if b["node"]["engine_is_default"]]. *)
Definition truthy (j : json) : bool :=
  match j with
  | JNull => false
  | JBool b => b
  | JNum n => negb (n =? 0)
  | JStr s => negb (String.eqb s "")
  | JArr l => match l with [] => false | _ => true end
  | JObj m => negb (bool_decide (m = ∅))
  end.

(** [j[key]] for a string key: a [dict] raises [KeyError] when the key is
    missing, every other JSON value raises [TypeError]. *)
Definition getitem (j : json) (key : string) : result json :=
  match j with
  | JObj m => match m !! key with
              | Some v => inr v
              | None => inl (KeyError key)
              end
  | _ => inl TypeError
  end.

(** The characters of a string, each as a one-character string. *)
Fixpoint chars (s : string) : list json :=
  match s with
  | EmptyString => []
  | String c s' => JStr (String c EmptyString) :: chars s'
  end.

(** [for b in j]: a list yields its items, a dict its keys, a string its
    characters; the other JSON values are not iterable. *)
Definition iterate (j : json) : result (list json) :=
  match j with
  | JArr l => inr l
  | JObj m => inr (JStr <$> (map_to_list m).*1)
  | JStr s => inr (chars s)
  | _ => inl TypeError
  end.

(** ** HTTP transport *)

(** The requests the engine resolver sends, named by endpoint and carrying
    the values substituted into the URL template or passed as parameters.
    The URL templates themselves ([firebolt.common.urls]) stay abstract. *)
Inductive Request : Type :=
| AccountByName (account_name : option string)
| EngineByName (account_id : json) (engine_name : string)
| EngineById (account_id : json) (engine_id : json)
| DatabaseByName (account_id : json) (database_name : string)
| Bindings (account_id : json) (database_id : json).

(** A response: status code, and the decoded body when the body is JSON. *)
Record Response : Type := mkResponse {
  status_code : Z;
  body : option json
}.

(** What the backend answers to a request: an exception raised while
    sending (a network failure is a [RequestError]) or a response. *)
Definition Transport : Type := Request -> result Response.

(** [httpx.Response.raise_for_status], as in the [httpx] this code imports
    its transport from: every status that is not a success (200 to 299)
    raises [HTTPStatusError], informational and redirect answers
    included. *)
Definition is_error (code : Z) : bool :=
  negb ((200 <=? code) && (code <=? 299)).

Definition raise_for_status (r : Response) : result unit :=
  if is_error (status_code r) then inl (HTTPStatusError (status_code r))
  else inr tt.

(** [response.json()]. *)
Definition response_json (r : Response) : result json :=
  match body r with
  | Some j => inr j
  | None => inl JSONDecodeError
  end.

(** ** State and exceptions *)

(** A Python computation over a mutable state [S]: it ends with a value or
    an exception, and what it changed stays changed in both cases. *)
Definition M (S A : Type) : Type := S -> result A * S.

Definition ret {S A} (a : A) : M S A := fun s => (inr a, s).

Definition raise {S A} (e : exn) : M S A := fun s => (inl e, s).

Definition bind {S A B} (m : M S A) (k : A -> M S B) : M S B :=
  fun s => match m s with
           | (inr a, s') => k a s'
           | (inl e, s') => (inl e, s')
           end.

(** [try m except ... as e: h e]; the handler decides per exception and
    re-raises what no [except] clause matches. *)
Definition try_except {S A} (m : M S A) (h : exn -> M S A) : M S A :=
  fun s => match m s with
           | (inr a, s') => (inr a, s')
           | (inl e, s') => h e s'
           end.

Definition lift {S A} (r : result A) : M S A := fun s => (r, s).

Declare Scope py_scope.
Delimit Scope py_scope with py.
Notation "x <- m ;; k" := (bind m (fun x => k))
  (at level 100, m at next level, right associativity) : py_scope.
Notation "m ;;; k" := (bind m (fun _ => k))
  (at level 100, right associativity) : py_scope.
Local Open Scope py_scope.

(** ** The authenticated client during resolution *)

(** State of the network as one [AsyncClient] sees it: the memoised
    [account_id] of the client and the requests sent so far, oldest first. *)
Record ClientState : Type := mkClientState {
  account_id_cache : option json;
  sent : list Request
}.

Definition no_traffic : ClientState :=
  {| account_id_cache := None; sent := [] |}.

(** [async with AsyncClient(...) as client]: the block runs with a client
    of its own, whose [account_id] is not computed yet. *)
Definition with_new_client {A} (m : M ClientState A) : M ClientState A :=
  fun s => m {| account_id_cache := None; sent := sent s |}.

Section Resolver.

Variable transport : Transport.

(** [await client.get(...)]: the request is logged, then answered. *)
Definition client_get (req : Request) : M ClientState Response :=
  fun s => (transport req,
            {| account_id_cache := account_id_cache s;
               sent := sent s ++ [req] |}).

(** The body of the [account_id] property of [AsyncClient]. *)
Definition compute_account_id (account_name : option string)
    : M ClientState json :=
  response <- client_get (AccountByName account_name) ;;
  if status_code response =? 404
  then raise (AccountNotFoundError account_name)
  else
    lift (raise_for_status response) ;;;
    j <- lift (response_json response) ;;
    lift (getitem j "id").

(** [AsyncClient.account_id] ([async_cached_property]): computed by one
    request on first use and remembered when that succeeds. *)
Definition account_id (account_name : option string) : M ClientState json :=
  fun s =>
    match account_id_cache s with
    | Some a => (inr a, s)
    | None =>
        match compute_account_id account_name s with
        | (inr a, s') =>
            (inr a, {| account_id_cache := Some a; sent := sent s' |})
        | (inl e, s') => (inl e, s')
        end
    end.

(** [_get_engine_endpoint]. *)
Definition _get_engine_endpoint (account_name : option string)
    (engine_id : json) : M ClientState json :=
  a <- account_id account_name ;;
  response <- client_get (EngineById a engine_id) ;;
  lift (raise_for_status response) ;;;
  j <- lift (response_json response) ;;
  engine <- lift (getitem j "engine") ;;
  lift (getitem engine "endpoint").

(** The [try] block of [_resolve_engine_url]. *)
Definition _resolve_engine_url_body (engine_name : string)
    (account_name : option string) : M ClientState json :=
  a <- account_id account_name ;;
  response <- client_get (EngineByName a engine_name) ;;
  lift (raise_for_status response) ;;;
  j <- lift (response_json response) ;;
  outer <- lift (getitem j "engine_id") ;;
  engine_id <- lift (getitem outer "engine_id") ;;
  _get_engine_endpoint account_name engine_id.

(** The [except] clauses of [_resolve_engine_url], in source order. *)
Definition _resolve_engine_url_handler (engine_name : string) (e : exn)
    : M ClientState json :=
  match e with
  | HTTPStatusError code =>
      if negb (code =? 404)
      then raise (InterfaceError "Unable to retrieve engine endpoint" e)
      else raise (FireboltEngineError
                    ("Firebolt engine " ++ engine_name ++ " does not exist."))
  | JSONDecodeError | RequestError _ | RuntimeError _ =>
      raise (InterfaceError "Unable to retrieve engine endpoint" e)
  | _ => raise e
  end.

(** [_resolve_engine_url]: a client of its own, the body under its
    handlers. *)
Definition _resolve_engine_url (engine_name : string)
    (account_name : option string) : M ClientState json :=
  with_new_client
    (try_except (_resolve_engine_url_body engine_name account_name)
                (_resolve_engine_url_handler engine_name)).

(** The list comprehension
    [[b["node"] for b in edges if b["node"]["engine_is_default"]]]. *)
Fixpoint default_bindings (edges : list json) : result (list json) :=
  match edges with
  | [] => inr []
  | b :: rest =>
      match getitem b "node" with
      | inl e => inl e
      | inr node =>
          match getitem node "engine_is_default" with
          | inl e => inl e
          | inr flag =>
              if truthy flag
              then match default_bindings rest with
                   | inl e => inl e
                   | inr l => inr (node :: l)
                   end
              else default_bindings rest
          end
      end
  end.

(** The [try] block of [_get_database_default_engine_url]. *)
Definition _get_database_default_engine_url_body (database : string)
    (account_name : option string) : M ClientState json :=
  a <- account_id account_name ;;
  response <- client_get (DatabaseByName a database) ;;
  lift (raise_for_status response) ;;;
  j <- lift (response_json response) ;;
  outer <- lift (getitem j "database_id") ;;
  database_id <- lift (getitem outer "database_id") ;;
  response <- client_get (Bindings a database_id) ;;
  lift (raise_for_status response) ;;;
  j <- lift (response_json response) ;;
  edges <- lift (getitem j "edges") ;;
  items <- lift (iterate edges) ;;
  default_engines_bindings <- lift (default_bindings items) ;;
  match default_engines_bindings with
  | [] => raise (FireboltDatabaseError
                   ("Database " ++ database ++ " has no default engines"))
  | first :: _ =>
      ident <- lift (getitem first "id") ;;
      engine_id <- lift (getitem ident "engine_id") ;;
      _get_engine_endpoint account_name engine_id
  end.

(** The single [except] clause of [_get_database_default_engine_url]. *)
Definition _get_database_default_engine_url_handler (e : exn)
    : M ClientState json :=
  match e with
  | JSONDecodeError | RequestError _ | RuntimeError _
  | HTTPStatusError _ | KeyError _ =>
      raise (InterfaceError "Unable to retrieve default engine endpoint" e)
  | _ => raise e
  end.

Definition _get_database_default_engine_url (database : string)
    (account_name : option string) : M ClientState json :=
  with_new_client
    (try_except (_get_database_default_engine_url_body database account_name)
                _get_database_default_engine_url_handler).

End Resolver.

(** ** Argument validation and [connect] *)

(** Truthiness of an [Optional[str]] argument: [None] and the empty string
    are false. *)
Definition str_truthy (o : option string) : bool :=
  match o with
  | Some s => negb (String.eqb s "")
  | None => false
  end.

(** [_validate_engine_name_and_url]. *)
Definition _validate_engine_name_and_url (engine_name engine_url : option string)
    : result unit :=
  if str_truthy engine_name && str_truthy engine_url
  then inl (ConfigurationError
    "Both engine_name and engine_url are provided. Provide only one to connect.")
  else inr tt.

(** What [_get_auth] returns: the [(username, password)] tuple or the
    object made by [Auth.from_token]. *)
Inductive AuthTypes : Type :=
| UsernamePassword (username password : option string)
| FromToken (access_token : option string).

(** [_get_auth]. *)
Definition _get_auth (username password access_token : option string)
    : result AuthTypes :=
  if negb (str_truthy access_token) then
    if negb (str_truthy username) || negb (str_truthy password)
    then inl (ConfigurationError
      "Neither username/password nor access_token are provided. Provide one to authenticate")
    else inr (UsernamePassword username password)
  else if str_truthy username || str_truthy password
  then inl (ConfigurationError
    "Either username/password and access_token are provided. Provide only one to authenticate")
  else inr (FromToken access_token).

(** Modelled from the spec: [fix_url_schema] of [firebolt.common.util] is
    not among the files at hand; the spec gives it as "if the given endpoint
    lacks an http(s):// prefix, prepend https://". *)
Definition fix_url_schema (url : string) : string :=
  if String.prefix "http://" url || String.prefix "https://" url
  then url
  else "https://" ++ url.

(** The keyword arguments of [connect]. *)
Record ConnectArgs : Type := mkConnectArgs {
  database : option string;
  username : option string;
  password : option string;
  access_token : option string;
  engine_name : option string;
  engine_url : option string;
  account_name : option string;
  api_endpoint : string
}.

(** The arguments [connect] hands to the connection class. *)
Record ConnectionInit : Type := mkConnectionInit {
  init_engine_url : string;
  init_database : option string;
  init_auth : AuthTypes;
  init_api_endpoint : string
}.

(** An [Optional[str]] as the value the resolver paths return. *)
Definition json_of_optional (o : option string) : json :=
  match o with
  | Some s => JStr s
  | None => JNull
  end.

(** The name handed to the by-name resolver. *)
Definition str_value (o : option string) : string :=
  match o with
  | Some s => s
  | None => ""
  end.

(** The end of [connect_inner], once the engine URL is known:
    [assert engine_url is not None], [fix_url_schema(engine_url)] (a string
    method, so any other value raises [AttributeError]) and the call of the
    connection class. *)
Definition finish_connect (args : ConnectArgs) (auth : AuthTypes)
    (api : string) (url : json) : result ConnectionInit :=
  match url with
  | JNull => inl AssertionError
  | JStr s => inr {| init_engine_url := fix_url_schema s;
                     init_database := database args;
                     init_auth := auth;
                     init_api_endpoint := api |}
  | _ => inl AttributeError
  end.

(** [connect_inner] of [async_connect_factory]. *)
Definition connect_inner (transport : Transport) (args : ConnectArgs)
    : M ClientState ConnectionInit :=
  if negb (str_truthy (database args))
  then raise (ConfigurationError "database name is required to connect.")
  else
    lift (_validate_engine_name_and_url (engine_name args) (engine_url args)) ;;;
    auth <- lift (_get_auth (username args) (password args)
                            (access_token args)) ;;
    let api := fix_url_schema (api_endpoint args) in
    url <- (if negb (str_truthy (engine_name args))
               && negb (str_truthy (engine_url args))
            then _get_database_default_engine_url transport
                   (str_value (database args)) (account_name args)
            else if str_truthy (engine_name args)
            then _resolve_engine_url transport
                   (str_value (engine_name args)) (account_name args)
            else ret (json_of_optional (engine_url args))) ;;
    lift (finish_connect args auth api url).

(** [connect(...)] as a caller sees it: the outcome and the requests that
    went over the network. *)
Definition connect (transport : Transport) (args : ConnectArgs)
    : result ConnectionInit * list Request :=
  let (r, s) := connect_inner transport args no_traffic in (r, sent s).

(** ** Connections and cursors *)

(** Cursor objects are told apart by identity. *)
Definition cursor_ref : Type := nat.

(** A connection together with the cursor objects created through it:
    whether each cursor object is closed, the list [_cursors] of tracked
    cursors, the flag [_is_closed], whether the client has been torn down,
    and the identity the next cursor object gets. *)
Record World : Type := mkWorld {
  cursor_closed : gmap cursor_ref bool;
  _cursors : list cursor_ref;
  _is_closed : bool;
  client_closed : bool;
  next_ref : cursor_ref
}.

(** [BaseConnection.__init__]. *)
Definition new_connection : World :=
  {| cursor_closed := ∅; _cursors := []; _is_closed := false;
     client_closed := false; next_ref := 0%nat |}.

(** The property [closed]. *)
Definition closed (w : World) : bool := _is_closed w.

(** [list.remove(x)]: drops the first occurrence, [None] for [ValueError]. *)
Fixpoint list_remove (x : cursor_ref) (l : list cursor_ref)
    : option (list cursor_ref) :=
  match l with
  | [] => None
  | y :: rest =>
      if Nat.eqb x y then Some rest
      else match list_remove x rest with
           | Some rest' => Some (y :: rest')
           | None => None
           end
  end.

(** [self._cursors.remove(cursor)]. *)
Definition cursors_remove (c : cursor_ref) : M World unit :=
  fun w =>
    match list_remove c (_cursors w) with
    | Some l => (inr tt, {| cursor_closed := cursor_closed w; _cursors := l;
                            _is_closed := _is_closed w;
                            client_closed := client_closed w;
                            next_ref := next_ref w |})
    | None => (inl ValueError, w)
    end.

(** [BaseConnection._remove_cursor]. *)
Definition _remove_cursor (c : cursor_ref) : M World unit :=
  try_except (cursors_remove c)
             (fun e => match e with
                       | ValueError => ret tt
                       | _ => raise e
                       end).

(** Modelled from the spec: the constructor of the cursor class
    ([firebolt/async_db/cursor.py]) is not among the files at hand; the
    spec has a cursor carry an is_closed flag, and a cursor is created
    open. *)
Definition new_cursor_closed : bool := false.

(** [BaseConnection._cursor]. *)
Definition _cursor : M World cursor_ref :=
  fun w =>
    if closed w
    then (inl (ConnectionClosedError
                 "Unable to create cursor: connection closed"), w)
    else
      let c := next_ref w in
      (inr c, {| cursor_closed := <[ c := new_cursor_closed ]> (cursor_closed w);
                 _cursors := _cursors w ++ [c];
                 _is_closed := _is_closed w;
                 client_closed := client_closed w;
                 next_ref := S c |}).

(** [BaseConnection.commit]. *)
Definition commit : M World unit :=
  fun w =>
    if closed w
    then (inl (ConnectionClosedError "Unable to commit: connection closed"), w)
    else (inr tt, w).

(** [await self._client.aclose()]. *)
Definition client_aclose : M World unit :=
  fun w => (inr tt, {| cursor_closed := cursor_closed w;
                       _cursors := _cursors w;
                       _is_closed := _is_closed w;
                       client_closed := true;
                       next_ref := next_ref w |}).

(** [self._is_closed = True]. *)
Definition mark_closed : M World unit :=
  fun w => (inr tt, {| cursor_closed := cursor_closed w;
                       _cursors := _cursors w;
                       _is_closed := true;
                       client_closed := client_closed w;
                       next_ref := next_ref w |}).

Section BaseConnection.

(** The method [close] of the connection's [cursor_class]. *)
Variable cursor_close : cursor_ref -> M World unit.

(** [for c in cursors: c.close()]. *)
Fixpoint close_all (cursors : list cursor_ref) : M World unit :=
  match cursors with
  | [] => ret tt
  | c :: rest => cursor_close c ;;; close_all rest
  end.

(** [BaseConnection._aclose]. *)
Definition _aclose : M World unit :=
  fun w =>
    if closed w then (inr tt, w)
    else (close_all (_cursors w) ;;; client_aclose ;;; mark_closed) w.

(** [_aclose] up to the point where it is suspended in
    [await self._client.aclose()]; [false] when it returned at once. *)
Definition _aclose_until_await : M World bool :=
  fun w =>
    if closed w then (inr false, w)
    else (close_all (_cursors w) ;;; ret true) w.

(** [_aclose] from the moment the awaited teardown is over. *)
Definition _aclose_after_await : M World unit :=
  client_aclose ;;; mark_closed.

End BaseConnection.

(** Modelled from the spec: [Cursor.close] of [firebolt/async_db/cursor.py]
    is not among the files at hand. The spec has a cursor carry an
    is_closed flag and has cursor close remove the cursor from the
    connection's tracked set, which is what [_remove_cursor] is for. *)
Definition Cursor_close (c : cursor_ref) : M World unit :=
  fun w =>
    _remove_cursor c {| cursor_closed := <[ c := true ]> (cursor_closed w);
                        _cursors := _cursors w;
                        _is_closed := _is_closed w;
                        client_closed := client_closed w;
                        next_ref := next_ref w |}.

(** [Connection.aclose], with [cursor_class = Cursor]. *)
Definition aclose : M World unit := _aclose Cursor_close.

(** ** Token caching *)

Module TokenCache.

(** Modelled from the spec: the auth classes and the token storage
    ([firebolt.client.auth], [firebolt.utils.token_storage]) are not among
    the files at hand. The spec gives a token as a value with an expiry, a
    persisted record keyed by the credential identity, and [get_token] as:
    return the current token while it is valid ([now < expires_at -
    safety_margin]); otherwise adopt a non-expired record of the store when
    caching is enabled; otherwise exchange the credentials, set
    [expires_at = now + ttl], and persist the token when caching is
    enabled. *)
Record Token : Type := mkToken {
  value : string;
  expires_at : Z
}.

(** Modelled from the spec: the credential identity under which a record
    is persisted, client id and client secret. *)
Definition Identity : Type := (string * string)%type.

(** Modelled from the spec: the auth state machine, with its credential,
    whether it caches, and its current token. *)
Record Auth : Type := mkAuth {
  credential : Identity;
  use_token_cache : bool;
  token : option Token
}.

(** Modelled from the spec: the transition to Valid with token [t]. *)
Definition adopt (a : Auth) (t : Token) : Auth :=
  {| credential := credential a; use_token_cache := use_token_cache a;
     token := Some t |}.

Section GetToken.

Variable safety_margin : Z.

(** The current time, and what the auth endpoint answers to an exchange
    made now: an error, or a token value with its time to live. *)
Variable now : Z.
Variable exchange : result (string * Z).

(** Modelled from the spec: a token is valid while
    [now < expires_at - safety_margin]. *)
Definition valid (t : Token) : bool := now <? expires_at t - safety_margin.

(** Modelled from the spec: the read of the store, made only with caching
    enabled. *)
Definition cached_record (a : Auth) (store : gmap Identity Token)
    : option Token :=
  if use_token_cache a
  then match store !! credential a with
       | Some r => if now <? expires_at r then Some r else None
       | None => None
       end
  else None.

(** Modelled from the spec: the credential exchange and what follows a
    successful one. *)
Definition exchange_credentials : M (Auth * gmap Identity Token) string :=
  fun '(a, store) =>
    match exchange with
    | inl e => (inl e, (a, store))
    | inr (v, ttl) =>
        let t := {| value := v; expires_at := now + ttl |} in
        (inr v, (adopt a t,
                 if use_token_cache a then <[ credential a := t ]> store
                 else store))
    end.

(** Modelled from the spec: what [get_token] does once the current token
    is missing or no longer valid. *)
Definition refresh_token : M (Auth * gmap Identity Token) string :=
  fun '(a, store) =>
    match cached_record a store with
    | Some r => (inr (value r), (adopt a r, store))
    | None => exchange_credentials (a, store)
    end.

(** Modelled from the spec: [get_token]. *)
Definition get_token : M (Auth * gmap Identity Token) string :=
  fun '(a, store) =>
    match token a with
    | Some t => if valid t then (inr (value t), (a, store))
                else refresh_token (a, store)
    | None => refresh_token (a, store)
    end.

(** Modelled from the spec: the current token is missing or no longer
    valid. *)
Definition needs_refresh (a : Auth) : bool :=
  match token a with
  | Some t => negb (valid t)
  | None => true
  end.

End GetToken.

End TokenCache.

(** ** The connection as a context manager *)

(** [Connection.__aenter__]. *)
Definition __aenter__ : M World unit :=
  fun w =>
    if closed w
    then (inl (ConnectionClosedError "Connection is already closed"), w)
    else (inr tt, w).

Section ContextManager.

(** The method [close] of the connection's [cursor_class]. *)
Variable cursor_close : cursor_ref -> M World unit.

(** [Connection.__aexit__]: it closes the connection and returns [None],
    for every exception it is handed. *)
Definition __aexit__ : M World unit := _aclose cursor_close.

(** [async with connection: body]. The block runs once [__aenter__] has
    returned; [__aexit__] runs when the block is left, and since it answers
    [None] an exception of the block is raised again after it. *)
Definition async_with {A} (body : M World A) : M World A :=
  fun w =>
    match __aenter__ w with
    | (inl e, w1) => (inl e, w1)
    | (inr _, w1) =>
        match body w1 with
        | (inr a, w2) =>
            match __aexit__ w2 with
            | (inr _, w3) => (inr a, w3)
            | (inl e, w3) => (inl e, w3)
            end
        | (inl e, w2) =>
            match __aexit__ w2 with
            | (inr _, w3) => (inl e, w3)
            | (inl e', w3) => (inl e', w3)
            end
        end
    end.

End ContextManager.

(** ** Engine revisions *)

(** [EngineRevisionKey]. *)
Record EngineRevisionKey : Type := mkEngineRevisionKey {
  key_account_id : string;
  key_engine_id : string;
  key_engine_revision_id : string
}.

(** The URL [get_by_engine_revision_key] formats from a key. *)
Definition engine_revision_url (k : EngineRevisionKey) : string :=
  "/core/v1/accounts/" ++ key_account_id k
  ++ "/engines/" ++ key_engine_id k
  ++ "/engineRevisions/" ++ key_engine_revision_id k.

Section EngineRevision.

(** The model class and its [parse_obj], which are [pydantic]'s. *)
Variable EngineRevision : Type.
Variable parse_obj : json -> result EngineRevision.

(** [fc.http_client.get], by URL. *)
Variable http_get : string -> result Response.

(** [EngineRevision.get_by_engine_revision_key]. *)
Definition get_by_engine_revision_key (k : EngineRevisionKey)
    : result EngineRevision :=
  match http_get (engine_revision_url k) with
  | inl e => inl e
  | inr response =>
      match response_json response with
      | inl e => inl e
      | inr j =>
          match getitem j "engine_revision" with
          | inl e => inl e
          | inr engine_spec => parse_obj engine_spec
          end
      end
  end.

(** [EngineRevision.get_by_id], for a client whose account is
    [fc_account_id]. *)
Definition get_by_id (fc_account_id engine_id engine_revision_id : string)
    : result EngineRevision :=
  get_by_engine_revision_key
    {| key_account_id := fc_account_id;
       key_engine_id := engine_id;
       key_engine_revision_id := engine_revision_id |}.

End EngineRevision.

(** * Part II: vocabulary of the statements *)

Import TokenCache.

(** ** Calls of [connect] *)

Definition is_InterfaceError {A} (r : result A) : bool :=
  match r with inl (InterfaceError _ _) => true | _ => false end.

(** The two credential forms [connect] accepts: username with password and
    no token, or a token with neither username nor password. *)
Definition one_credential_form (args : ConnectArgs) : bool :=
  (str_truthy (username args) && str_truthy (password args)
     && negb (str_truthy (access_token args)))
  || (negb (str_truthy (username args)) && negb (str_truthy (password args))
     && str_truthy (access_token args)).

Definition no_backend : Transport := fun _ => inl (RequestError "unreachable").

Definition args_both_credentials : ConnectArgs :=
  {| database := Some "db1"; username := Some "u"; password := Some "p";
     access_token := Some "t"; engine_name := Some "e1"; engine_url := None;
     account_name := None; api_endpoint := "host" |}.

Definition args_both_selectors : ConnectArgs :=
  {| database := Some "db1"; username := Some "u"; password := Some "p";
     access_token := None; engine_name := Some "e1";
     engine_url := Some "https://e1.example"; account_name := None;
     api_endpoint := "host" |}.

(** The same call with other engine selectors. *)
Definition with_selectors (args : ConnectArgs) (name url : option string)
    : ConnectArgs :=
  {| database := database args; username := username args;
     password := password args; access_token := access_token args;
     engine_name := name; engine_url := url;
     account_name := account_name args; api_endpoint := api_endpoint args |}.

(** ** Mock backends *)

(** A 200 answer with a JSON body, and an answer that is only a status. *)
Definition ok (j : json) : result Response :=
  inr {| status_code := 200; body := Some j |}.

Definition answer_status (code : Z) : result Response :=
  inr {| status_code := code; body := None |}.

(** The JSON object with one key. *)
Definition obj1 (k : string) (v : json) : json := JObj {[ k := v ]}.

Definition binding (engine_id : string) (is_default : bool) : json :=
  obj1 "node"
    (JObj (<[ "engine_is_default" := JBool is_default ]>
             {[ "id" := obj1 "engine_id" (JStr engine_id) ]})).

Definition endpoint_of (domain : string) : json :=
  obj1 "engine" (obj1 "endpoint" (JStr domain)).

(** A backend in the style of the unit tests: the account is "acc", the
    database is "did", and the answers to the two engine lookups and the
    bindings of the database are as given. *)
Definition mock_backend (by_name by_id : result Response)
    (edges : list json) : Transport :=
  fun req =>
    match req with
    | AccountByName _ => ok (obj1 "id" (JStr "acc"))
    | EngineByName _ _ => by_name
    | EngineById _ _ => by_id
    | DatabaseByName _ _ => ok (obj1 "database_id" (obj1 "database_id" (JStr "did")))
    | Bindings _ _ => ok (obj1 "edges" (JArr edges))
    end.

Definition healthy_backend : Transport :=
  mock_backend (ok (obj1 "engine_id" (obj1 "engine_id" (JStr "eid"))))
               (ok (endpoint_of "e1.example"))
               [binding "eid" true].

Definition args_password : ConnectArgs :=
  {| database := Some "db1"; username := Some "u"; password := Some "p";
     access_token := None; engine_name := None; engine_url := None;
     account_name := None; api_endpoint := "host" |}.

(** ** Stages of engine resolution *)

(** What [get], [raise_for_status] and [json()] make of the backend's
    answer to one request. *)
Definition checked_json (answer : result Response) : result json :=
  match answer with
  | inl e => inl e
  | inr response =>
      match raise_for_status response with
      | inl e => inl e
      | inr _ => response_json response
      end
  end.

(** [j[k1][k2]]. *)
Definition getitem2 (j : json) (k1 k2 : string) : result json :=
  match getitem j k1 with
  | inl e => inl e
  | inr v => getitem v k2
  end.

(** The failures the resolver treats as lookup failures: an error status,
    a network failure, a body that is not JSON. *)
Inductive lookup_failure : exn -> Prop :=
| lf_status code : lookup_failure (HTTPStatusError code)
| lf_network msg : lookup_failure (RequestError msg)
| lf_decode : lookup_failure JSONDecodeError.

(** Where on the by-name path a request can fail: while the account is
    resolved, at the lookup of the engine by name, or at the fetch of the
    endpoint of the engine that lookup named. *)
Inductive by_name_failure (transport : Transport) (name : string)
    (acct : option string) : exn -> Prop :=
| fails_at_account e :
    fst (account_id transport acct no_traffic) = inl e ->
    by_name_failure transport name acct e
| fails_at_name_lookup a e :
    fst (account_id transport acct no_traffic) = inr a ->
    checked_json (transport (EngineByName a name)) = inl e ->
    by_name_failure transport name acct e
| fails_at_endpoint_fetch a j eid e :
    fst (account_id transport acct no_traffic) = inr a ->
    checked_json (transport (EngineByName a name)) = inr j ->
    getitem2 j "engine_id" "engine_id" = inr eid ->
    checked_json (transport (EngineById a eid)) = inl e ->
    by_name_failure transport name acct e.

Definition is_status_404 (e : exn) : bool :=
  match e with
  | HTTPStatusError code => code =? 404
  | _ => false
  end.

Definition backend_name_lookup_500 : Transport :=
  mock_backend (answer_status 500) (ok (endpoint_of "e1.example")) [].

Definition backend_endpoint_404 : Transport :=
  mock_backend (ok (obj1 "engine_id" (obj1 "engine_id" (JStr "eid"))))
               (answer_status 404) [].

(** One lookup and the two keys read from its answer. *)
Definition fetch_field (transport : Transport) (req : Request)
    (k1 k2 : string) : result json :=
  match checked_json (transport req) with
  | inl e => inl e
  | inr j => getitem2 j k1 k2
  end.

(** The bindings lookup and the default bindings read from its answer. *)
Definition fetch_defaults (transport : Transport) (a database_id : json)
    : result (list json) :=
  match checked_json (transport (Bindings a database_id)) with
  | inl e => inl e
  | inr j =>
      match getitem j "edges" with
      | inl e => inl e
      | inr edges =>
          match iterate edges with
          | inl e => inl e
          | inr items => default_bindings items
          end
      end
  end.

(** Where the database-default path can fail before it has an endpoint. *)
Inductive default_path_failure (transport : Transport) (db : string)
    (acct : option string) : exn -> Prop :=
| dfails_at_account e :
    fst (account_id transport acct no_traffic) = inl e ->
    default_path_failure transport db acct e
| dfails_at_database_lookup a e :
    fst (account_id transport acct no_traffic) = inr a ->
    fetch_field transport (DatabaseByName a db) "database_id" "database_id"
      = inl e ->
    default_path_failure transport db acct e
| dfails_at_bindings_lookup a did e :
    fst (account_id transport acct no_traffic) = inr a ->
    fetch_field transport (DatabaseByName a db) "database_id" "database_id"
      = inr did ->
    fetch_defaults transport a did = inl e ->
    default_path_failure transport db acct e
| dfails_at_engine_id a did first rest e :
    fst (account_id transport acct no_traffic) = inr a ->
    fetch_field transport (DatabaseByName a db) "database_id" "database_id"
      = inr did ->
    fetch_defaults transport a did = inr (first :: rest) ->
    getitem2 first "id" "engine_id" = inl e ->
    default_path_failure transport db acct e
| dfails_at_endpoint_fetch a did first rest eid e :
    fst (account_id transport acct no_traffic) = inr a ->
    fetch_field transport (DatabaseByName a db) "database_id" "database_id"
      = inr did ->
    fetch_defaults transport a did = inr (first :: rest) ->
    getitem2 first "id" "engine_id" = inr eid ->
    fetch_field transport (EngineById a eid) "engine" "endpoint" = inl e ->
    default_path_failure transport db acct e.

(** The failures the database-default path wraps: an error status, a
    network failure, a body that is not JSON, a missing key. *)
Inductive wrapped_failure : exn -> Prop :=
| wf_status code : wrapped_failure (HTTPStatusError code)
| wf_network msg : wrapped_failure (RequestError msg)
| wf_decode : wrapped_failure JSONDecodeError
| wf_key key : wrapped_failure (KeyError key).

Definition backend_no_default : Transport :=
  mock_backend (answer_status 404) (ok (endpoint_of "e1.example"))
               [binding "eid" false].

Definition backend_bindings_500 : Transport :=
  fun req =>
    match req with
    | Bindings _ _ => answer_status 500
    | _ => healthy_backend req
    end.

(** A database with two bindings flagged default, whose engines have
    different endpoints. *)
Definition backend_two_defaults : Transport :=
  fun req =>
    match req with
    | EngineById _ (JStr eid) => ok (endpoint_of (eid ++ ".example"))
    | Bindings _ _ =>
        ok (obj1 "edges" (JArr [binding "first" true; binding "second" true]))
    | _ => healthy_backend req
    end.

(** ** Histories of a connection *)

(** What a caller may do with a connection and its cursors. *)
Inductive Call : Type :=
| call_cursor
| call_cursor_close (c : cursor_ref)
| call_aclose
| call_commit.

(** One call; an exception it raises is the caller's to handle, the state
    stays as the call left it. Only a cursor that exists can be closed. *)
Definition perform (w : World) (op : Call) : World :=
  match op with
  | call_cursor => snd (_cursor w)
  | call_cursor_close c =>
      match cursor_closed w !! c with
      | Some _ => snd (Cursor_close c w)
      | None => w
      end
  | call_aclose => snd (aclose w)
  | call_commit => snd (commit w)
  end.

Definition run (ops : list Call) (w : World) : World :=
  fold_left perform ops w.

(** Every cursor object created so far reports closed. *)
Definition all_cursors_closed (w : World) : Prop :=
  forall c b, cursor_closed w !! c = Some b -> b = true.

(** [l] without the first [x], or [l] itself when [x] is not in it: what is
    left of [_cursors] after [_remove_cursor]. *)
Definition discard (x : cursor_ref) (l : list cursor_ref) : list cursor_ref :=
  match list_remove x l with
  | Some l' => l'
  | None => l
  end.

Definition with_cursors (w : World) (m : gmap cursor_ref bool)
    (l : list cursor_ref) : World :=
  {| cursor_closed := m; _cursors := l; _is_closed := _is_closed w;
     client_closed := client_closed w; next_ref := next_ref w |}.

(** The two folds the close cascade performs over its snapshot. *)
Definition mark_all (snapshot : list cursor_ref) (m : gmap cursor_ref bool)
    : gmap cursor_ref bool :=
  fold_left (fun acc c => <[ c := true ]> acc) snapshot m.

Definition discard_all (snapshot l : list cursor_ref) : list cursor_ref :=
  fold_left (fun acc c => discard c acc) snapshot l.

(** What holds of every connection state a caller can bring about: an open
    cursor is tracked, a cursor object is older than the next one, and a
    closed connection tracks nothing and has only closed cursors. *)
Record consistent (w : World) : Prop := mkConsistent {
  open_tracked : forall c, cursor_closed w !! c = Some false -> c ∈ _cursors w;
  refs_allocated : forall c, is_Some (cursor_closed w !! c) -> (c < next_ref w)%nat;
  tracked_allocated : forall c, c ∈ _cursors w -> (c < next_ref w)%nat;
  closed_clean : closed w = true -> _cursors w = [] /\ all_cursors_closed w
}.

(** A cursor class whose [close] raises for one cursor and is [Cursor]'s
    for the others. *)
Definition failing_close (bad : cursor_ref) (c : cursor_ref) : M World unit :=
  if Nat.eqb c bad then raise (RuntimeError "close failed")
  else Cursor_close c.

(** ** Token stores *)

Definition service_account (cache : bool) : Auth :=
  {| credential := ("client_id", "client_secret");
     use_token_cache := cache; token := None |}.

Definition stale_store : gmap Identity Token :=
  {[ ("client_id", "client_secret")
     := {| value := "stale"; expires_at := 10 |} ]}.

(** ** Further vocabulary: backends, bindings, blocks and keys *)

(** A backend that answers the account lookup with a status and a body. *)
Definition backend_account (code : Z) (j : json) : Transport :=
  fun req =>
    match req with
    | AccountByName _ => inr {| status_code := code; body := Some j |}
    | _ => healthy_backend req
    end.

(** The lookups of the by-name path that follow the account lookup. *)
Definition is_engine_lookup (req : Request) : bool :=
  match req with
  | EngineByName _ _ | EngineById _ _ => true
  | _ => false
  end.

(** The lookups of the database-default path that follow the account
    lookup. *)
Definition is_default_path_lookup (req : Request) : bool :=
  match req with
  | DatabaseByName _ _ | Bindings _ _ | EngineById _ _ => true
  | _ => false
  end.

(** The client once it has sent [reqs] more and holds the account id [a]. *)
Definition client_after (a : option json) (s : ClientState)
    (reqs : list Request) : ClientState :=
  {| account_id_cache := a; sent := sent s ++ reqs |}.

(** A backend whose answer to the lookup by name has no engine id in it,
    and one whose bindings answer has [null] for its edges. *)
Definition backend_name_lookup_empty : Transport :=
  mock_backend (ok (JObj ∅)) (ok (endpoint_of "e1.example")) [].

Definition backend_edges_null : Transport :=
  fun req =>
    match req with
    | Bindings _ _ => ok (obj1 "edges" JNull)
    | _ => healthy_backend req
    end.

(** Calls of [connect] by URL and by name. *)
Definition args_by_url : ConnectArgs :=
  with_selectors args_password None (Some "e1.example").

Definition args_by_name : ConnectArgs :=
  with_selectors args_password (Some "e1") None.

Definition args_nothing : ConnectArgs :=
  {| database := None; username := None; password := None;
     access_token := None; engine_name := Some "e1";
     engine_url := Some "e1.example"; account_name := None;
     api_endpoint := "host" |}.

(** The tracked cursors are the open cursors, each of them once. *)
Definition tracks_open_cursors (w : World) : Prop :=
  NoDup (_cursors w)
  /\ forall c, c ∈ _cursors w <-> cursor_closed w !! c = Some false.

(** A block that creates a cursor and then fails. *)
Definition failing_block : M World unit :=
  c <- _cursor ;; raise (RuntimeError "query failed").

(** Two answers that differ at most in their status code. *)
Definition same_body (a b : result Response) : Prop :=
  match a, b with
  | inl e1, inl e2 => e1 = e2
  | inr r1, inr r2 => body r1 = body r2
  | _, _ => False
  end.

(** A string without a slash (character 47) in it. *)
Fixpoint no_slash (s : string) : bool :=
  match s with
  | EmptyString => true
  | String c s' => negb (Ascii.eqb c (Ascii.ascii_of_nat 47)) && no_slash s'
  end.

(** A backend of revisions that answers 404 with a JSON error body. *)
Definition revisions_not_found : string -> result Response :=
  fun _ => inr {| status_code := 404;
                  body := Some (obj1 "error" (JStr "not found")) |}.

(** A binding whose flag is some JSON value, and the node inside it. *)
Definition node_flagged (engine_id : string) (flag : json) : json :=
  JObj (<[ "engine_is_default" := flag ]>
          {[ "id" := obj1 "engine_id" (JStr engine_id) ]}).

Definition binding_flagged (engine_id : string) (flag : json) : json :=
  obj1 "node" (node_flagged engine_id flag).

(** A backend on which the account does not exist. *)
Definition backend_no_account : Transport :=
  backend_account 404 (obj1 "id" (JStr "acc")).

(** An answer with a status and a JSON body, and backends that answer a
    lookup with a redirect although the body is the one of a success. *)
Definition answer_with (code : Z) (j : json) : result Response :=
  inr {| status_code := code; body := Some j |}.

Definition backend_name_lookup_301 : Transport :=
  mock_backend
    (answer_with 301 (obj1 "engine_id" (obj1 "engine_id" (JStr "eid"))))
    (answer_status 404) [].

Definition backend_database_301 : Transport :=
  fun req =>
    match req with
    | DatabaseByName _ _ =>
        answer_with 301 (obj1 "database_id" (obj1 "database_id" (JStr "did")))
    | _ => healthy_backend req
    end.

(** What the resolver does with a client: it sends a request or it reads
    the account id. *)
Inductive ClientUse : Type :=
| use_get (req : Request)
| use_account_id.

Definition client_use (transport : Transport) (acct : option string)
    (s : ClientState) (u : ClientUse) : ClientState :=
  match u with
  | use_get req => snd (client_get transport req s)
  | use_account_id => snd (account_id transport acct s)
  end.

Definition client_uses (transport : Transport) (acct : option string)
    (us : list ClientUse) (s : ClientState) : ClientState :=
  fold_left (client_use transport acct) us s.

(** The requests asked for by [use_get] among the uses. *)
Fixpoint requests_of (us : list ClientUse) : list Request :=
  match us with
  | [] => []
  | use_get req :: rest => req :: requests_of rest
  | use_account_id :: rest => requests_of rest
  end.

(** * Part III: properties *)

(** ** Argument validation *)

Ltac run_monad :=
  unfold bind, lift, raise, ret, try_except, with_new_client in *; simpl in *.

Lemma _get_auth_rejects (u p t : option string) :
  (str_truthy u && str_truthy p && negb (str_truthy t))
  || (negb (str_truthy u) && negb (str_truthy p) && str_truthy t) = false ->
  exists msg, _get_auth u p t = inl (ConfigurationError msg).
Proof.
  unfold _get_auth.
  destruct (str_truthy u), (str_truthy p), (str_truthy t); simpl;
    intros H; try discriminate H; eauto.
Qed.

Lemma _get_auth_accepts (u p t : option string) :
  (str_truthy u && str_truthy p && negb (str_truthy t))
  || (negb (str_truthy u) && negb (str_truthy p) && str_truthy t) = true ->
  exists auth, _get_auth u p t = inr auth.
Proof.
  unfold _get_auth.
  destruct (str_truthy u), (str_truthy p), (str_truthy t); simpl;
    intros H; try discriminate H; eauto.
Qed.

Lemma connect_validation_error (transport : Transport) (args : ConnectArgs) :
  str_truthy (database args) = false
  \/ (str_truthy (engine_name args) && str_truthy (engine_url args) = true)
  \/ one_credential_form args = false ->
  exists msg, connect transport args = (inl (ConfigurationError msg), []).
Proof.
  intros H. unfold connect, connect_inner.
  destruct (str_truthy (database args)) eqn:Hdb; simpl.
  2: { eauto. }
  run_monad. unfold _validate_engine_name_and_url.
  destruct (str_truthy (engine_name args) && str_truthy (engine_url args))
    eqn:Hsel; simpl.
  { eauto. }
  destruct H as [H | [H | H]]; try discriminate H.
  destruct (_get_auth_rejects _ _ _ H) as [msg Hmsg].
  rewrite Hmsg. eauto.
Qed.

(** C5. Every credential combination other than username with password
    alone, or access token alone, makes [connect] fail with
    [ConfigurationError], and no request has been sent when it does. *)
Theorem connect_bad_credentials_ConfigurationError
    (transport : Transport) (args : ConnectArgs) :
  one_credential_form args = false ->
  exists msg, connect transport args = (inl (ConfigurationError msg), []).
Proof.
  intros H. apply connect_validation_error. auto.
Qed.

Lemma connect_bad_credentials_ConfigurationError_witness :
  one_credential_form args_both_credentials = false
  /\ exists msg, connect no_backend args_both_credentials
                 = (inl (ConfigurationError msg), []).
Proof.
  split; [reflexivity |].
  apply (connect_bad_credentials_ConfigurationError
           no_backend args_both_credentials).
  reflexivity.
Defined.

(** C6. Whenever both [engine_name] and [engine_url] are supplied,
    [connect] fails with [ConfigurationError], whatever the other arguments
    and whatever the backend would answer. *)
Theorem connect_both_selectors_ConfigurationError
    (transport : Transport) (args : ConnectArgs) :
  str_truthy (engine_name args) = true ->
  str_truthy (engine_url args) = true ->
  exists msg, connect transport args = (inl (ConfigurationError msg), []).
Proof.
  intros Hn Hu. apply connect_validation_error.
  right; left. rewrite Hn, Hu. reflexivity.
Qed.

Lemma connect_both_selectors_ConfigurationError_witness :
  exists msg, connect no_backend args_both_selectors
              = (inl (ConfigurationError msg), []).
Proof.
  apply (connect_both_selectors_ConfigurationError
           no_backend args_both_selectors); reflexivity.
Defined.

Lemma str_truthy_nonempty (s : string) : s <> "" -> str_truthy (Some s) = true.
Proof.
  intros H. simpl. destruct (String.eqb_spec s ""); [contradiction | reflexivity].
Qed.

Lemma connect_selector_truthiness (transport : Transport) (args : ConnectArgs)
    (n n' u u' : option string) :
  str_truthy n = str_truthy n' ->
  str_truthy u = str_truthy u' ->
  str_value n = str_value n' \/ str_truthy n = false ->
  json_of_optional u = json_of_optional u' \/ str_truthy n = true
    \/ str_truthy u = false ->
  connect transport (with_selectors args n u)
  = connect transport (with_selectors args n' u').
Proof.
  intros Hn Hu Hname Hurl.
  unfold connect, connect_inner, _validate_engine_name_and_url; simpl.
  rewrite <- Hn, <- Hu.
  destruct (str_truthy (database args)); simpl; [| reflexivity].
  run_monad.
  destruct (str_truthy n) eqn:En, (str_truthy u) eqn:Eu; simpl;
    try reflexivity;
    destruct (_get_auth _ _ _); simpl; try reflexivity.
  - destruct Hname as [-> | ?]; [reflexivity | discriminate].
  - destruct Hurl as [-> | [? | ?]]; [reflexivity | discriminate ..].
Qed.

(** C10. The selector gate looks at truthiness.  With one selector the empty
    string and the other a non-empty string the gate raises nothing and
    [connect] behaves exactly as if the empty selector had not been passed;
    with both selectors empty [connect] takes the database-default-engine
    path. *)
Theorem empty_selector_treated_as_absent
    (transport : Transport) (args : ConnectArgs) (s : string) :
  s <> "" ->
  _validate_engine_name_and_url (Some "") (Some s) = inr tt
  /\ _validate_engine_name_and_url (Some s) (Some "") = inr tt
  /\ connect transport (with_selectors args (Some "") (Some s))
     = connect transport (with_selectors args None (Some s))
  /\ connect transport (with_selectors args (Some s) (Some ""))
     = connect transport (with_selectors args (Some s) None)
  /\ _validate_engine_name_and_url (Some "") (Some "") = inr tt
  /\ forall auth,
       str_truthy (database args) = true ->
       _get_auth (username args) (password args) (access_token args)
         = inr auth ->
       connect transport (with_selectors args (Some "") (Some ""))
       = let (r, st) := _get_database_default_engine_url transport
                          (str_value (database args)) (account_name args)
                          no_traffic in
         (match r with
          | inl e => inl e
          | inr url => finish_connect args auth
                         (fix_url_schema (api_endpoint args)) url
          end, sent st).
Proof.
  intros Hs. pose proof (str_truthy_nonempty s Hs) as Ht.
  refine (conj _ (conj _ (conj _ (conj _ (conj _ _))))).
  - reflexivity.
  - unfold _validate_engine_name_and_url. rewrite Ht. reflexivity.
  - apply connect_selector_truthiness; auto.
  - apply connect_selector_truthiness; auto.
  - reflexivity.
  - intros auth Hdb Hauth.
    unfold connect, connect_inner, _validate_engine_name_and_url; simpl.
    rewrite Hdb; simpl. unfold bind, lift. rewrite Hauth; simpl.
    destruct (_get_database_default_engine_url _ _ _ _) as [[e | url] st];
      simpl; [reflexivity |].
    destruct (finish_connect _ _ _ _); reflexivity.
Qed.

Example connect_scenario_A :
  connect healthy_backend args_password
  = (inr {| init_engine_url := "https://e1.example";
            init_database := Some "db1";
            init_auth := UsernamePassword (Some "u") (Some "p");
            init_api_endpoint := "https://host" |},
     [AccountByName None; DatabaseByName (JStr "acc") "db1";
      Bindings (JStr "acc") (JStr "did");
      EngineById (JStr "acc") (JStr "eid")]).
Proof. vm_compute. reflexivity. Qed.

Lemma empty_selector_treated_as_absent_witness :
  connect healthy_backend (with_selectors args_password (Some "") (Some "e1.example"))
  = connect healthy_backend (with_selectors args_password None (Some "e1.example"))
  /\ connect healthy_backend (with_selectors args_password (Some "") (Some ""))
     = (inr {| init_engine_url := "https://e1.example";
               init_database := Some "db1";
               init_auth := UsernamePassword (Some "u") (Some "p");
               init_api_endpoint := "https://host" |},
        [AccountByName None; DatabaseByName (JStr "acc") "db1";
         Bindings (JStr "acc") (JStr "did");
         EngineById (JStr "acc") (JStr "eid")]).
Proof.
  assert (Hne : "e1.example" <> "") by discriminate.
  destruct (empty_selector_treated_as_absent healthy_backend args_password
              "e1.example" Hne) as (_ & _ & Habsent & _ & _ & Hboth).
  split; [exact Habsent |].
  rewrite (Hboth (UsernamePassword (Some "u") (Some "p")));
    [| reflexivity | reflexivity].
  vm_compute. reflexivity.
Defined.

(** ** Engine resolution by name *)

Lemma checked_json_404 (answer : result Response) (r : Response) :
  answer = inr r -> status_code r = 404 ->
  checked_json answer = inl (HTTPStatusError 404).
Proof. intros -> H. unfold checked_json, raise_for_status. rewrite H. reflexivity. Qed.

Lemma checked_json_error_status (answer : result Response) (r : Response) :
  answer = inr r -> is_error (status_code r) = true ->
  checked_json answer = inl (HTTPStatusError (status_code r)).
Proof. intros -> H. unfold checked_json, raise_for_status. rewrite H. reflexivity. Qed.

Section ResolverFacts.

Variable transport : Transport.

(** A client that has not resolved its account yet resolves it the same
    way whatever it has sent before. *)
Lemma account_id_uncached (acct : option string) (s : ClientState) :
  account_id_cache s = None ->
  account_id transport acct s
  = match fst (account_id transport acct no_traffic) with
    | inr a => (inr a, {| account_id_cache := Some a;
                          sent := sent s ++ [AccountByName acct] |})
    | inl e => (inl e, {| account_id_cache := None;
                          sent := sent s ++ [AccountByName acct] |})
    end.
Proof.
  intros Hc. unfold account_id, compute_account_id, client_get.
  run_monad. rewrite !Hc.
  destruct (transport (AccountByName acct)) as [e | r]; simpl; [reflexivity |].
  destruct (status_code r =? 404); simpl; [reflexivity |].
  destruct (raise_for_status r); simpl; [reflexivity |].
  destruct (response_json r) as [e | j]; simpl; [reflexivity |].
  destruct (getitem j "id"); reflexivity.
Qed.

(** Once resolved, the account id is answered from the cache. *)
Lemma account_id_cached (acct : option string) (s : ClientState) (a : json) :
  account_id_cache s = Some a -> account_id transport acct s = (inr a, s).
Proof. intros Hc. unfold account_id. rewrite Hc. reflexivity. Qed.

(** The endpoint fetch on a client that knows its account. *)
Lemma _get_engine_endpoint_cached (acct : option string) (eid a : json)
    (s : ClientState) :
  account_id_cache s = Some a ->
  fst (_get_engine_endpoint transport acct eid s)
  = match checked_json (transport (EngineById a eid)) with
    | inl e => inl e
    | inr j => getitem2 j "engine" "endpoint"
    end.
Proof.
  intros Hc. unfold _get_engine_endpoint, bind.
  rewrite (account_id_cached acct s a Hc).
  unfold client_get, checked_json, getitem2, lift.
  destruct (transport (EngineById a eid)) as [e | r]; simpl; [reflexivity |].
  destruct (raise_for_status r); simpl; [reflexivity |].
  destruct (response_json r) as [e | j]; simpl; [reflexivity |].
  destruct (getitem j "engine"); reflexivity.
Qed.

(** The [try] block of the by-name path, stage by stage. *)
Lemma _resolve_engine_url_body_stages (name : string) (acct : option string)
    (s : ClientState) :
  account_id_cache s = None ->
  fst (_resolve_engine_url_body transport name acct s)
  = match fst (account_id transport acct no_traffic) with
    | inl e => inl e
    | inr a =>
        match checked_json (transport (EngineByName a name)) with
        | inl e => inl e
        | inr j =>
            match getitem2 j "engine_id" "engine_id" with
            | inl e => inl e
            | inr eid =>
                match checked_json (transport (EngineById a eid)) with
                | inl e => inl e
                | inr j' => getitem2 j' "engine" "endpoint"
                end
            end
        end
    end.
Proof.
  intros Hc. unfold _resolve_engine_url_body, bind at 1.
  rewrite (account_id_uncached acct s Hc).
  destruct (fst (account_id transport acct no_traffic)) as [e | a]; simpl;
    [reflexivity |].
  unfold bind at 1. unfold client_get at 1. unfold checked_json at 1.
  destruct (transport (EngineByName a name)) as [e | r]; simpl; [reflexivity |].
  unfold bind at 1, lift at 1.
  destruct (raise_for_status r); simpl; [reflexivity |].
  unfold bind at 1, lift at 1.
  destruct (response_json r) as [e | j]; simpl; [reflexivity |].
  unfold getitem2 at 1. unfold bind at 1, lift at 1.
  destruct (getitem j "engine_id") as [e | outer]; simpl; [reflexivity |].
  unfold bind at 1, lift at 1.
  destruct (getitem outer "engine_id") as [e | eid]; simpl; [reflexivity |].
  apply _get_engine_endpoint_cached. reflexivity.
Qed.

(** How [_resolve_engine_url] answers, given what its [try] block did. *)
Lemma _resolve_engine_url_outcome (name : string) (acct : option string)
    (s : ClientState) :
  fst (_resolve_engine_url transport name acct s)
  = match fst (_resolve_engine_url_body transport name acct
                 {| account_id_cache := None; sent := sent s |}) with
    | inr url => inr url
    | inl e => fst (_resolve_engine_url_handler name e no_traffic)
    end.
Proof.
  unfold _resolve_engine_url, with_new_client, try_except.
  destruct (_resolve_engine_url_body _ _ _ _) as [[e | url] s']; simpl;
    [| reflexivity].
  unfold _resolve_engine_url_handler, raise.
  destruct e; try reflexivity.
  match goal with |- context [negb ?b] => destruct b end; reflexivity.
Qed.

End ResolverFacts.

Lemma by_name_failure_reaches_handler (transport : Transport) (name : string)
    (acct : option string) (s : ClientState) (e : exn) :
  by_name_failure transport name acct e ->
  fst (_resolve_engine_url transport name acct s)
  = fst (_resolve_engine_url_handler name e no_traffic).
Proof.
  intros Hf. rewrite _resolve_engine_url_outcome.
  rewrite _resolve_engine_url_body_stages by reflexivity.
  destruct Hf as [e Ha | a e Ha Hn | a j eid e Ha Hn Hid He].
  - rewrite Ha. reflexivity.
  - rewrite Ha, Hn. reflexivity.
  - rewrite Ha, Hn, Hid, He. reflexivity.
Qed.

(** C2, as the code has it. On the by-name path an HTTP 404 raised by
    [raise_for_status], at the lookup of the engine by name and equally at
    the fetch of its endpoint, becomes [FireboltEngineError] naming the
    engine; every other error status, every network failure and every body
    that is not JSON becomes [InterfaceError] wrapping the cause. *)
Theorem by_name_lookup_failure_mapping (transport : Transport) (name : string)
    (acct : option string) (s : ClientState) (e : exn) :
  lookup_failure e ->
  by_name_failure transport name acct e ->
  fst (_resolve_engine_url transport name acct s)
  = inl (if is_status_404 e
         then FireboltEngineError
                ("Firebolt engine " ++ name ++ " does not exist.")
         else InterfaceError "Unable to retrieve engine endpoint" e).
Proof.
  intros Hl Hf. rewrite (by_name_failure_reaches_handler _ _ _ _ _ Hf).
  destruct Hl as [code | msg |]; simpl; try reflexivity.
  destruct (code =? 404); reflexivity.
Qed.

Lemma by_name_lookup_failure_mapping_witness :
  fst (_resolve_engine_url backend_name_lookup_500 "e1" None no_traffic)
    = inl (InterfaceError "Unable to retrieve engine endpoint"
             (HTTPStatusError 500))
  /\ fst (_resolve_engine_url backend_name_lookup_301 "e1" None no_traffic)
     = inl (InterfaceError "Unable to retrieve engine endpoint"
              (HTTPStatusError 301)).
Proof.
  split.
  - apply (by_name_lookup_failure_mapping backend_name_lookup_500 "e1" None
             no_traffic (HTTPStatusError 500)).
    + constructor.
    + apply (fails_at_name_lookup _ _ _ (JStr "acc")); reflexivity.
  - apply (by_name_lookup_failure_mapping backend_name_lookup_301 "e1" None
             no_traffic (HTTPStatusError 301)).
    + constructor.
    + apply (fails_at_name_lookup _ _ _ (JStr "acc")); reflexivity.
Defined.

(** A redirect answer to the lookup by name raises although its body
    names an engine: the endpoint is never fetched. *)
Example by_name_redirect_stops_resolution :
  _resolve_engine_url backend_name_lookup_301 "e1" None no_traffic
  = (inl (InterfaceError "Unable to retrieve engine endpoint"
            (HTTPStatusError 301)),
     {| account_id_cache := Some (JStr "acc");
        sent := [AccountByName None; EngineByName (JStr "acc") "e1"] |}).
Proof. vm_compute. reflexivity. Qed.

(** A 404 on the lookup by name itself gives [FireboltEngineError]. *)
Lemma by_name_404_on_name_lookup (transport : Transport) (name : string)
    (acct : option string) (s : ClientState) (a : json) (r : Response) :
  fst (account_id transport acct no_traffic) = inr a ->
  transport (EngineByName a name) = inr r ->
  status_code r = 404 ->
  fst (_resolve_engine_url transport name acct s)
  = inl (FireboltEngineError ("Firebolt engine " ++ name ++ " does not exist.")).
Proof.
  intros Ha Hr H404.
  rewrite (by_name_failure_reaches_handler transport name acct s
             (HTTPStatusError 404)); [reflexivity |].
  eapply fails_at_name_lookup; [exact Ha |].
  eapply checked_json_404; eauto.
Qed.

(** A 404 on the account lookup is neither: [AccountNotFoundError] passes
    through the handlers unchanged. *)
Lemma by_name_404_on_account_lookup (transport : Transport) (name : string)
    (acct : option string) (s : ClientState) (r : Response) :
  transport (AccountByName acct) = inr r ->
  status_code r = 404 ->
  fst (_resolve_engine_url transport name acct s)
  = inl (AccountNotFoundError acct).
Proof.
  intros Hr H404.
  rewrite (by_name_failure_reaches_handler transport name acct s
             (AccountNotFoundError acct)); [reflexivity |].
  apply fails_at_account.
  unfold account_id, compute_account_id, client_get, bind; simpl.
  rewrite Hr, H404. reflexivity.
Qed.

(** C2 as stated fails: the lookup by name answers 200, the endpoint fetch
    that follows answers 404, and the outcome is [FireboltEngineError], not
    [InterfaceError]. *)
Lemma by_name_404_on_endpoint_fetch_is_FireboltEngineError :
  backend_endpoint_404 (EngineByName (JStr "acc") "e1")
    = ok (obj1 "engine_id" (obj1 "engine_id" (JStr "eid")))
  /\ backend_endpoint_404 (EngineById (JStr "acc") (JStr "eid"))
     = answer_status 404
  /\ _resolve_engine_url backend_endpoint_404 "e1" None no_traffic
     = (inl (FireboltEngineError "Firebolt engine e1 does not exist."),
        {| account_id_cache := Some (JStr "acc");
           sent := [AccountByName None; EngineByName (JStr "acc") "e1";
                    EngineById (JStr "acc") (JStr "eid")] |})
  /\ is_InterfaceError
       (fst (_resolve_engine_url backend_endpoint_404 "e1" None no_traffic))
     = false.
Proof. vm_compute. repeat split. Qed.

(** ** Database-default engine resolution *)

Section DefaultPathFacts.

Variable transport : Transport.

Lemma _get_engine_endpoint_fetch_field (acct : option string) (eid a : json)
    (s : ClientState) :
  account_id_cache s = Some a ->
  fst (_get_engine_endpoint transport acct eid s)
  = fetch_field transport (EngineById a eid) "engine" "endpoint".
Proof. apply _get_engine_endpoint_cached. Qed.

(** The [try] block of the database-default path, stage by stage. *)
Lemma _get_database_default_engine_url_body_stages (db : string)
    (acct : option string) (s : ClientState) :
  account_id_cache s = None ->
  fst (_get_database_default_engine_url_body transport db acct s)
  = match fst (account_id transport acct no_traffic) with
    | inl e => inl e
    | inr a =>
        match fetch_field transport (DatabaseByName a db)
                "database_id" "database_id" with
        | inl e => inl e
        | inr did =>
            match fetch_defaults transport a did with
            | inl e => inl e
            | inr [] =>
                inl (FireboltDatabaseError
                       ("Database " ++ db ++ " has no default engines"))
            | inr (first :: _) =>
                match getitem2 first "id" "engine_id" with
                | inl e => inl e
                | inr eid =>
                    fetch_field transport (EngineById a eid)
                      "engine" "endpoint"
                end
            end
        end
    end.
Proof.
  intros Hc. unfold _get_database_default_engine_url_body, bind at 1.
  rewrite (account_id_uncached transport acct s Hc).
  destruct (fst (account_id transport acct no_traffic)) as [e | a]; simpl;
    [reflexivity |].
  unfold fetch_field at 1, checked_json at 1, getitem2 at 1.
  unfold bind at 1, client_get at 1.
  destruct (transport (DatabaseByName a db)) as [e | r]; simpl; [reflexivity |].
  unfold bind at 1, lift at 1.
  destruct (raise_for_status r); simpl; [reflexivity |].
  unfold bind at 1, lift at 1.
  destruct (response_json r) as [e | j]; simpl; [reflexivity |].
  unfold bind at 1, lift at 1.
  destruct (getitem j "database_id") as [e | outer]; simpl; [reflexivity |].
  unfold bind at 1, lift at 1.
  destruct (getitem outer "database_id") as [e | did]; simpl; [reflexivity |].
  unfold fetch_defaults, checked_json.
  unfold bind at 1, client_get at 1.
  destruct (transport (Bindings a did)) as [e | r2]; simpl; [reflexivity |].
  unfold bind at 1, lift at 1.
  destruct (raise_for_status r2); simpl; [reflexivity |].
  unfold bind at 1, lift at 1.
  destruct (response_json r2) as [e | j2]; simpl; [reflexivity |].
  unfold bind at 1, lift at 1.
  destruct (getitem j2 "edges") as [e | edges]; simpl; [reflexivity |].
  unfold bind at 1, lift at 1.
  destruct (iterate edges) as [e | items]; simpl; [reflexivity |].
  unfold bind at 1, lift at 1.
  destruct (default_bindings items) as [e | [| first rest]]; simpl;
    [reflexivity | reflexivity |].
  unfold getitem2 at 1. unfold bind at 1, lift at 1.
  destruct (getitem first "id") as [e | ident]; simpl; [reflexivity |].
  unfold bind at 1, lift at 1.
  destruct (getitem ident "engine_id") as [e | eid]; simpl; [reflexivity |].
  apply _get_engine_endpoint_fetch_field. reflexivity.
Qed.

(** How [_get_database_default_engine_url] answers, given what its [try]
    block did. *)
Lemma _get_database_default_engine_url_outcome (db : string)
    (acct : option string) (s : ClientState) :
  fst (_get_database_default_engine_url transport db acct s)
  = match fst (_get_database_default_engine_url_body transport db acct
                 {| account_id_cache := None; sent := sent s |}) with
    | inr url => inr url
    | inl e => fst (_get_database_default_engine_url_handler e no_traffic)
    end.
Proof.
  unfold _get_database_default_engine_url, with_new_client, try_except.
  destruct (_get_database_default_engine_url_body _ _ _ _) as [[e | url] s'];
    simpl; [| reflexivity].
  unfold _get_database_default_engine_url_handler, raise.
  destruct e; reflexivity.
Qed.

End DefaultPathFacts.

Lemma default_path_failure_reaches_handler (transport : Transport)
    (db : string) (acct : option string) (s : ClientState) (e : exn) :
  default_path_failure transport db acct e ->
  fst (_get_database_default_engine_url transport db acct s)
  = fst (_get_database_default_engine_url_handler e no_traffic).
Proof.
  intros Hf. rewrite _get_database_default_engine_url_outcome.
  rewrite _get_database_default_engine_url_body_stages by reflexivity.
  destruct Hf as [e Ha | a e Ha Hd | a did e Ha Hd Hb
                 | a did first rest e Ha Hd Hb Hi
                 | a did first rest eid e Ha Hd Hb Hi He].
  - rewrite Ha. reflexivity.
  - rewrite Ha, Hd. reflexivity.
  - rewrite Ha, Hd, Hb. reflexivity.
  - rewrite Ha, Hd, Hb, Hi. reflexivity.
  - rewrite Ha, Hd, Hb, Hi, He. reflexivity.
Qed.

(** The comprehension keeps, in order, the nodes whose flag is truthy. *)
Lemma default_bindings_keeps_flagged (items : list json)
    (nodes : list (json * json)) :
  Forall2 (fun b nf => getitem b "node" = inr nf.1
                       /\ getitem nf.1 "engine_is_default" = inr nf.2)
          items nodes ->
  default_bindings items
  = inr (fst <$> base.filter (fun nf => truthy nf.2 = true) nodes).
Proof.
  induction 1 as [| b [node flag] items nodes [Hn Hf] _ IH]; [reflexivity |].
  simpl in *. rewrite Hn, Hf, IH.
  rewrite filter_cons. simpl.
  destruct (truthy flag); simpl.
  - destruct (decide (true = true)); [reflexivity | congruence].
  - destruct (decide (false = true)); [discriminate | reflexivity].
Qed.

(** C3, as the code has it. Once the database and its bindings are looked
    up, no binding flagged default gives [FireboltDatabaseError], and one or
    more give the endpoint of the engine of the first of them; a failing
    status, network failure, undecodable body or missing key at any lookup
    of the path gives [InterfaceError] wrapping the cause. *)
Theorem default_engine_resolution_outcomes (transport : Transport)
    (db : string) (acct : option string) (s : ClientState) :
  (forall a did defaults,
     fst (account_id transport acct no_traffic) = inr a ->
     fetch_field transport (DatabaseByName a db) "database_id" "database_id"
       = inr did ->
     fetch_defaults transport a did = inr defaults ->
     (defaults = [] ->
      fst (_get_database_default_engine_url transport db acct s)
      = inl (FireboltDatabaseError
               ("Database " ++ db ++ " has no default engines")))
     /\ (forall first rest eid url,
           defaults = first :: rest ->
           getitem2 first "id" "engine_id" = inr eid ->
           fetch_field transport (EngineById a eid) "engine" "endpoint"
             = inr url ->
           fst (_get_database_default_engine_url transport db acct s)
           = inr url))
  /\ (forall e,
        wrapped_failure e ->
        default_path_failure transport db acct e ->
        fst (_get_database_default_engine_url transport db acct s)
        = inl (InterfaceError "Unable to retrieve default engine endpoint" e)).
Proof.
  split.
  - intros a did defaults Ha Hd Hb.
    rewrite _get_database_default_engine_url_outcome.
    rewrite _get_database_default_engine_url_body_stages by reflexivity.
    rewrite Ha, Hd, Hb. split.
    + intros ->. reflexivity.
    + intros first rest eid url -> Hi He. rewrite Hi, He. reflexivity.
  - intros e Hw Hf.
    rewrite (default_path_failure_reaches_handler _ _ _ _ _ Hf).
    destruct Hw; reflexivity.
Qed.

Lemma default_engine_resolution_outcomes_witness :
  fst (_get_database_default_engine_url backend_no_default "db1" None
         no_traffic)
    = inl (FireboltDatabaseError "Database db1 has no default engines")
  /\ fst (_get_database_default_engine_url healthy_backend "db1" None
            no_traffic)
     = inr (JStr "e1.example")
  /\ fst (_get_database_default_engine_url backend_bindings_500 "db1" None
            no_traffic)
     = inl (InterfaceError "Unable to retrieve default engine endpoint"
              (HTTPStatusError 500))
  /\ fst (_get_database_default_engine_url backend_database_301 "db1" None
            no_traffic)
     = inl (InterfaceError "Unable to retrieve default engine endpoint"
              (HTTPStatusError 301)).
Proof.
  refine (conj _ (conj _ (conj _ _))).
  - apply (proj1 (default_engine_resolution_outcomes backend_no_default
                    "db1" None no_traffic)
             (JStr "acc") (JStr "did") []); reflexivity.
  - destruct (proj1 (default_engine_resolution_outcomes healthy_backend
                       "db1" None no_traffic)
                (JStr "acc") (JStr "did")
                [JObj (<[ "engine_is_default" := JBool true ]>
                         {[ "id" := obj1 "engine_id" (JStr "eid") ]})]
                eq_refl eq_refl eq_refl) as [_ Hone].
    apply (Hone (JObj (<[ "engine_is_default" := JBool true ]>
                         {[ "id" := obj1 "engine_id" (JStr "eid") ]}))
                [] (JStr "eid")); reflexivity.
  - apply (proj2 (default_engine_resolution_outcomes backend_bindings_500
                    "db1" None no_traffic)).
    + constructor.
    + apply (dfails_at_bindings_lookup _ _ _ (JStr "acc") (JStr "did"));
        reflexivity.
  - apply (proj2 (default_engine_resolution_outcomes backend_database_301
                    "db1" None no_traffic)).
    + constructor.
    + apply (dfails_at_database_lookup _ _ _ (JStr "acc")); reflexivity.
Defined.

(** A redirect answer to the database lookup raises although its body
    names a database: the bindings are never asked for. *)
Example default_path_redirect_stops_resolution :
  _get_database_default_engine_url backend_database_301 "db1" None no_traffic
  = (inl (InterfaceError "Unable to retrieve default engine endpoint"
            (HTTPStatusError 301)),
     {| account_id_cache := Some (JStr "acc");
        sent := [AccountByName None; DatabaseByName (JStr "acc") "db1"] |}).
Proof. vm_compute. reflexivity. Qed.

(** C3 as stated fails: with two bindings flagged default, so not exactly
    one, resolution raises nothing and answers the endpoint of the first. *)
Lemma two_default_bindings_resolve_to_first :
  (exists first second,
     fetch_defaults backend_two_defaults (JStr "acc") (JStr "did")
     = inr [first; second])
  /\ _get_database_default_engine_url backend_two_defaults "db1" None
       no_traffic
     = (inr (JStr "first.example"),
        {| account_id_cache := Some (JStr "acc");
           sent := [AccountByName None; DatabaseByName (JStr "acc") "db1";
                    Bindings (JStr "acc") (JStr "did");
                    EngineById (JStr "acc") (JStr "first")] |}).
Proof.
  split.
  - eexists _, _. vm_compute. reflexivity.
  - vm_compute. reflexivity.
Qed.

(** On this path too a 404 on the account lookup passes through as
    [AccountNotFoundError]. *)
Lemma default_path_404_on_account_lookup (transport : Transport)
    (db : string) (acct : option string) (s : ClientState) (r : Response) :
  transport (AccountByName acct) = inr r ->
  status_code r = 404 ->
  fst (_get_database_default_engine_url transport db acct s)
  = inl (AccountNotFoundError acct).
Proof.
  intros Hr H404.
  rewrite (default_path_failure_reaches_handler transport db acct s
             (AccountNotFoundError acct)); [reflexivity |].
  apply dfails_at_account.
  unfold account_id, compute_account_id, client_get, bind; simpl.
  rewrite Hr, H404. reflexivity.
Qed.

(** ** Connection lifecycle *)

Lemma list_remove_head (x : cursor_ref) (l : list cursor_ref) :
  list_remove x (x :: l) = Some l.
Proof. simpl. rewrite Nat.eqb_refl. reflexivity. Qed.

Lemma discard_head (x : cursor_ref) (l : list cursor_ref) :
  discard x (x :: l) = l.
Proof. unfold discard. rewrite list_remove_head. reflexivity. Qed.

Lemma discard_nil (x : cursor_ref) : discard x [] = [].
Proof. reflexivity. Qed.

Lemma list_remove_keeps_others (x y : cursor_ref) (l l' : list cursor_ref) :
  list_remove x l = Some l' -> y <> x -> y ∈ l -> y ∈ l'.
Proof.
  revert l'. induction l as [| z l IH]; intros l' Hr Hne Hin; [discriminate |].
  simpl in Hr. destruct (Nat.eqb_spec x z) as [-> | Hxz].
  - injection Hr as <-. apply elem_of_cons in Hin as [-> | Hin];
      [contradiction | exact Hin].
  - destruct (list_remove x l) as [rest |] eqn:Hrest; [| discriminate].
    injection Hr as <-. apply elem_of_cons in Hin as [-> | Hin].
    + apply elem_of_cons. left. reflexivity.
    + apply elem_of_cons. right. apply IH; auto.
Qed.

Lemma discard_keeps_others (x y : cursor_ref) (l : list cursor_ref) :
  y <> x -> y ∈ l -> y ∈ discard x l.
Proof.
  intros Hne Hin. unfold discard.
  destruct (list_remove x l) eqn:Hr; [| exact Hin].
  eapply list_remove_keeps_others; eauto.
Qed.

(** Removing a cursor never fails, whether it is tracked or not. *)
Lemma _remove_cursor_effect (c : cursor_ref) (w : World) :
  _remove_cursor c w
  = (inr tt, with_cursors w (cursor_closed w) (discard c (_cursors w))).
Proof.
  unfold _remove_cursor, try_except, cursors_remove, discard, with_cursors.
  destruct (list_remove c (_cursors w)); [reflexivity |].
  destruct w; reflexivity.
Qed.

Lemma Cursor_close_effect (c : cursor_ref) (w : World) :
  Cursor_close c w
  = (inr tt, with_cursors w (<[ c := true ]> (cursor_closed w))
                            (discard c (_cursors w))).
Proof. unfold Cursor_close. rewrite _remove_cursor_effect. reflexivity. Qed.

Lemma close_all_Cursor_close (snapshot : list cursor_ref) (w : World) :
  close_all Cursor_close snapshot w
  = (inr tt, with_cursors w (mark_all snapshot (cursor_closed w))
                            (discard_all snapshot (_cursors w))).
Proof.
  revert w. induction snapshot as [| c rest IH]; intros w.
  - destruct w; reflexivity.
  - simpl. unfold bind. rewrite Cursor_close_effect, IH. reflexivity.
Qed.

Lemma discard_all_self (l : list cursor_ref) : discard_all l l = [].
Proof.
  induction l as [| x l IH]; [reflexivity |].
  unfold discard_all in *. simpl. rewrite discard_head. exact IH.
Qed.

Lemma mark_all_lookup (snapshot : list cursor_ref) (m : gmap cursor_ref bool)
    (c : cursor_ref) :
  mark_all snapshot m !! c
  = if bool_decide (c ∈ snapshot) then Some true else m !! c.
Proof.
  revert m. induction snapshot as [| x rest IH]; intros m.
  - case_bool_decide as Hin; [| reflexivity].
    apply elem_of_nil in Hin. contradiction.
  - change (mark_all (x :: rest) m) with (mark_all rest (<[ x := true ]> m)).
    rewrite IH.
    case_bool_decide as Hrest; case_bool_decide as Hin; try reflexivity.
    + exfalso. apply Hin. apply elem_of_cons. right. exact Hrest.
    + apply elem_of_cons in Hin as [-> | Hin]; [| contradiction].
      apply lookup_insert_eq.
    + apply lookup_insert_ne. intros ->. apply Hin. apply elem_of_cons. left.
      reflexivity.
Qed.

(** Closing an open connection whose class of cursors is [Cursor]. *)
Lemma aclose_open_effect (w : World) :
  closed w = false ->
  aclose w
  = (inr tt, {| cursor_closed := mark_all (_cursors w) (cursor_closed w);
                _cursors := [];
                _is_closed := true;
                client_closed := true;
                next_ref := next_ref w |}).
Proof.
  intros Hopen. unfold aclose, _aclose. rewrite Hopen.
  unfold bind. rewrite close_all_Cursor_close.
  unfold client_aclose, mark_closed, with_cursors; simpl.
  rewrite discard_all_self. reflexivity.
Qed.

Lemma new_connection_consistent : consistent new_connection.
Proof.
  split; simpl.
  - intros c H. rewrite lookup_empty in H. discriminate.
  - intros c [b H]. rewrite lookup_empty in H. discriminate.
  - intros c H. apply elem_of_nil in H. contradiction.
  - discriminate.
Qed.

Lemma aclose_open_consistent (w : World) :
  closed w = false -> consistent w -> consistent (snd (aclose w)).
Proof.
  intros Hopen [Ht Ha Hl _]. rewrite (aclose_open_effect w Hopen). simpl.
  assert (Hall : forall c b,
             mark_all (_cursors w) (cursor_closed w) !! c = Some b -> b = true).
  { intros c b. rewrite mark_all_lookup.
    case_bool_decide as Hin; [congruence |].
    destruct b; [reflexivity |]. intros H. elim Hin. apply Ht. exact H. }
  split; simpl.
  - intros c H. apply Hall in H. discriminate.
  - intros c [b H]. rewrite mark_all_lookup in H.
    case_bool_decide as Hin; [apply Hl; exact Hin | apply Ha; eauto].
  - intros c H. apply elem_of_nil in H. contradiction.
  - intros _. split; [reflexivity | exact Hall].
Qed.

Lemma _cursor_consistent (w : World) :
  consistent w -> consistent (snd (_cursor w)).
Proof.
  intros Hc. unfold _cursor. destruct (closed w) eqn:Hopen; [exact Hc |].
  destruct Hc as [Ht Ha Hl _]. split; simpl.
  - intros c H. apply elem_of_app.
    destruct (decide (c = next_ref w)) as [-> | Hne].
    + right. apply list_elem_of_singleton. reflexivity.
    + left. apply Ht. rewrite lookup_insert_ne in H by congruence. exact H.
  - intros c H. destruct (decide (c = next_ref w)) as [-> | Hne]; [lia |].
    rewrite lookup_insert_ne in H by congruence. apply Ha in H. lia.
  - intros c [H | H%list_elem_of_singleton]%elem_of_app.
    + apply Hl in H. lia.
    + subst c. lia.
  - unfold closed in *. simpl. congruence.
Qed.

Lemma list_remove_subset (x y : cursor_ref) (l l' : list cursor_ref) :
  list_remove x l = Some l' -> y ∈ l' -> y ∈ l.
Proof.
  revert l'. induction l as [| z l IH]; intros l' Hr Hin; [discriminate |].
  simpl in Hr. destruct (Nat.eqb x z).
  - injection Hr as <-. apply elem_of_cons. right. exact Hin.
  - destruct (list_remove x l) as [rest |]; [| discriminate].
    injection Hr as <-. apply elem_of_cons in Hin as [-> | Hin].
    + apply elem_of_cons. left. reflexivity.
    + apply elem_of_cons. right. apply (IH rest); auto.
Qed.

Lemma discard_subset (x y : cursor_ref) (l : list cursor_ref) :
  y ∈ discard x l -> y ∈ l.
Proof.
  unfold discard. destruct (list_remove x l) eqn:Hr; [| auto].
  eapply list_remove_subset; eauto.
Qed.

Lemma Cursor_close_consistent (c : cursor_ref) (w : World) :
  is_Some (cursor_closed w !! c) ->
  consistent w -> consistent (snd (Cursor_close c w)).
Proof.
  intros Hex [Ht Ha Hl Hcl]. rewrite Cursor_close_effect. split; simpl.
  - intros c' H. destruct (decide (c' = c)) as [-> | Hne].
    + rewrite lookup_insert_eq in H. discriminate.
    + rewrite lookup_insert_ne in H by congruence.
      apply discard_keeps_others; auto.
  - intros c' H. destruct (decide (c' = c)) as [-> | Hne]; [auto |].
    rewrite lookup_insert_ne in H by congruence. auto.
  - intros c' H. apply Hl. eapply discard_subset; eauto.
  - intros Hclosed. destruct (Hcl Hclosed) as [Hnil Hall]. split.
    + rewrite Hnil. reflexivity.
    + unfold all_cursors_closed in *. simpl.
      intros c' b. destruct (decide (c' = c)) as [-> | Hne].
      * rewrite lookup_insert_eq. congruence.
      * rewrite lookup_insert_ne by congruence. apply Hall.
Qed.

Lemma perform_consistent (w : World) (op : Call) :
  consistent w -> consistent (perform w op).
Proof.
  intros Hc. destruct op as [| c | |]; simpl.
  - apply _cursor_consistent; exact Hc.
  - destruct (cursor_closed w !! c) eqn:Hex; [| exact Hc].
    apply Cursor_close_consistent; eauto.
  - destruct (closed w) eqn:Hopen.
    + unfold aclose, _aclose. rewrite Hopen. exact Hc.
    + apply aclose_open_consistent; auto.
  - unfold commit. destruct (closed w); exact Hc.
Qed.

Lemma run_consistent (ops : list Call) (w : World) :
  consistent w -> consistent (run ops w).
Proof.
  revert w. induction ops as [| op ops IH]; intros w Hc; [exact Hc |].
  apply IH. apply perform_consistent. exact Hc.
Qed.

(** A closed connection stays closed, and closed cursors stay closed. *)
Lemma perform_stays_closed (w : World) (op : Call) :
  closed w = true -> closed (perform w op) = true.
Proof.
  intros Hc. destruct op as [| c | |]; simpl.
  - unfold _cursor. rewrite Hc. exact Hc.
  - destruct (cursor_closed w !! c); [| exact Hc].
    rewrite Cursor_close_effect. exact Hc.
  - unfold aclose, _aclose. rewrite Hc. exact Hc.
  - unfold commit. rewrite Hc. exact Hc.
Qed.

Lemma run_stays_closed (ops : list Call) (w : World) :
  closed w = true -> closed (run ops w) = true.
Proof.
  revert w. induction ops as [| op ops IH]; intros w Hc; [exact Hc |].
  apply IH. apply perform_stays_closed. exact Hc.
Qed.

Lemma perform_cursor_stays_closed (w : World) (op : Call) (c : cursor_ref) :
  consistent w ->
  cursor_closed w !! c = Some true ->
  cursor_closed (perform w op) !! c = Some true.
Proof.
  intros Hc Hcl. destruct op as [| c' | |]; simpl.
  - unfold _cursor. destruct (closed w); [exact Hcl |]. simpl.
    rewrite lookup_insert_ne; [exact Hcl |].
    pose proof (refs_allocated w Hc c (ex_intro _ _ Hcl)). lia.
  - destruct (cursor_closed w !! c') eqn:Hex; [| exact Hcl].
    rewrite Cursor_close_effect. simpl.
    destruct (decide (c' = c)) as [-> | Hne].
    + apply lookup_insert_eq.
    + rewrite lookup_insert_ne by congruence. exact Hcl.
  - destruct (closed w) eqn:Hopen.
    + unfold aclose, _aclose. rewrite Hopen. exact Hcl.
    + rewrite (aclose_open_effect w Hopen). simpl. rewrite mark_all_lookup.
      case_bool_decide; [reflexivity | exact Hcl].
  - unfold commit. destruct (closed w); exact Hcl.
Qed.

Lemma run_cursor_stays_closed (ops : list Call) (w : World) (c : cursor_ref) :
  consistent w ->
  cursor_closed w !! c = Some true ->
  cursor_closed (run ops w) !! c = Some true.
Proof.
  revert w. induction ops as [| op ops IH]; intros w Hc Hcl; [exact Hcl |].
  apply IH.
  - apply perform_consistent. exact Hc.
  - apply perform_cursor_stays_closed; assumption.
Qed.

Lemma closed_rejects_cursor (w : World) :
  closed w = true ->
  _cursor w
  = (inl (ConnectionClosedError "Unable to create cursor: connection closed"),
     w).
Proof. intros H. unfold _cursor. rewrite H. reflexivity. Qed.

Lemma aclose_from_consistent (w : World) :
  consistent w ->
  exists w',
    aclose w = (inr tt, w')
    /\ consistent w'
    /\ closed w' = true
    /\ client_closed w' = client_closed w || negb (closed w)
    /\ forall c, is_Some (cursor_closed w !! c) ->
                 cursor_closed w' !! c = Some true.
Proof.
  intros Hc. destruct (closed w) eqn:Hopen.
  - exists w. unfold aclose, _aclose. rewrite Hopen.
    refine (conj eq_refl (conj Hc (conj eq_refl (conj _ _)))).
    + simpl. rewrite orb_false_r. reflexivity.
    + intros c [b Hb]. destruct (closed_clean w Hc Hopen) as [_ Hall].
      rewrite Hb. f_equal. eapply Hall; eauto.
  - pose proof (aclose_open_consistent w Hopen Hc) as Hc'.
    rewrite (aclose_open_effect w Hopen) in *. simpl in Hc'.
    eexists. refine (conj eq_refl (conj Hc' (conj eq_refl (conj _ _)))).
    + simpl. rewrite orb_true_r. reflexivity.
    + simpl. intros c [b Hb]. rewrite mark_all_lookup.
      case_bool_decide as Hin; [reflexivity |].
      destruct b; [exact Hb |]. elim Hin. apply (open_tracked w Hc). exact Hb.
Qed.

(** When the calls on a connection come one after the other, none of them
    while a close is suspended, closing the connection completes, leaves no
    tracked cursor, and leaves every cursor created through it closed; from
    then on [cursor()] raises [ConnectionClosedError], and no later call
    reopens anything. A cursor closed by its own [close] stays closed as
    well. *)
Theorem close_leaves_no_usable_cursor (before later : list Call) :
  let w := run before new_connection in
  (exists w',
     aclose w = (inr tt, w')
     /\ _cursors w' = []
     /\ (forall c, is_Some (cursor_closed w !! c) ->
                   cursor_closed w' !! c = Some true)
     /\ all_cursors_closed w'
     /\ _cursor w'
        = (inl (ConnectionClosedError
                  "Unable to create cursor: connection closed"), w')
     /\ _cursors (run later w') = []
     /\ all_cursors_closed (run later w')
     /\ fst (_cursor (run later w'))
        = inl (ConnectionClosedError
                 "Unable to create cursor: connection closed"))
  /\ forall c, is_Some (cursor_closed w !! c) ->
               cursor_closed (run later (snd (Cursor_close c w))) !! c
               = Some true.
Proof.
  intros w.
  assert (Hw : consistent w) by (apply run_consistent, new_connection_consistent).
  split.
  - destruct (aclose_from_consistent w Hw) as (w' & Ha & Hc' & Hcl & _ & Hprev).
    exists w'. destruct (closed_clean w' Hc' Hcl) as [Hnil Hall].
    pose proof (run_consistent later w' Hc') as Hc''.
    pose proof (run_stays_closed later w' Hcl) as Hcl''.
    destruct (closed_clean _ Hc'' Hcl'') as [Hnil'' Hall''].
    repeat (split; [assumption || (apply closed_rejects_cursor; assumption) |]).
    rewrite closed_rejects_cursor by assumption. reflexivity.
  - intros c Hex. apply run_cursor_stays_closed.
    + apply Cursor_close_consistent; assumption.
    + rewrite Cursor_close_effect. simpl. apply lookup_insert_eq.
Qed.

Lemma close_leaves_no_usable_cursor_witness :
  cursor_closed
    (run [call_cursor; call_commit]
       (snd (Cursor_close 0%nat
               (run [call_cursor; call_cursor] new_connection)))) !! 0%nat
  = Some true.
Proof.
  apply (proj2 (close_leaves_no_usable_cursor
                  [call_cursor; call_cursor] [call_cursor; call_commit])).
  vm_compute. eauto.
Defined.

(** The unit test [test_cursors_closed_on_close]. *)
Example cursors_closed_on_close :
  let w := run [call_cursor; call_cursor] new_connection in
  _cursors w = [0%nat; 1%nat]
  /\ aclose w
     = (inr tt, {| cursor_closed := <[ 1%nat := true ]>
                                      (<[ 0%nat := true ]>
                                         (<[ 1%nat := false ]>
                                            (<[ 0%nat := false ]> ∅)));
                   _cursors := []; _is_closed := true;
                   client_closed := true; next_ref := 2%nat |}).
Proof. split; reflexivity. Qed.

(** ** Failures during the close cascade *)

Lemma list_remove_absent (x : cursor_ref) (l : list cursor_ref) :
  x ∉ l -> list_remove x l = None.
Proof.
  induction l as [| y l IH]; intros Hn; [reflexivity |].
  simpl. destruct (Nat.eqb_spec x y) as [-> | Hne].
  - elim Hn. apply elem_of_cons. left. reflexivity.
  - rewrite IH; [reflexivity |].
    intros Hin. apply Hn. apply elem_of_cons. right. exact Hin.
Qed.

(** Removing a cursor twice is the same as removing it once when it was
    tracked once (scenario D of the spec). *)
Lemma _remove_cursor_twice (c : cursor_ref) (w : World) :
  c ∉ discard c (_cursors w) ->
  (_remove_cursor c ;;; _remove_cursor c) w = _remove_cursor c w.
Proof.
  intros Hn. unfold bind. rewrite !_remove_cursor_effect. simpl.
  unfold with_cursors; simpl. do 2 f_equal.
  unfold discard at 1. rewrite list_remove_absent by exact Hn. reflexivity.
Qed.

Section CloseCascade.

Variable cursor_close : cursor_ref -> M World unit.

(** The loop stops at the first cursor whose [close] raises. *)
Lemma close_all_stops_at_failure (done rest : list cursor_ref)
    (c : cursor_ref) (e : exn) (w w1 w2 : World) :
  close_all cursor_close done w = (inr tt, w1) ->
  cursor_close c w1 = (inl e, w2) ->
  close_all cursor_close (done ++ c :: rest) w = (inl e, w2).
Proof.
  revert w. induction done as [| d done IH]; intros w Hdone Hfail.
  - simpl in *. unfold ret in Hdone. injection Hdone as <-.
    unfold bind. rewrite Hfail. reflexivity.
  - simpl in *. unfold bind in *.
    destruct (cursor_close d w) as [[e' | []] w'] eqn:Hd; [discriminate |].
    apply IH; assumption.
Qed.

(** Closing a closed connection does nothing at all. *)
Lemma _aclose_closed (w : World) :
  closed w = true -> _aclose cursor_close w = (inr tt, w).
Proof. intros H. unfold _aclose. rewrite H. reflexivity. Qed.

(** A close that completes leaves the connection marked closed. *)
Lemma _aclose_completed_closed (w w1 : World) :
  _aclose cursor_close w = (inr tt, w1) -> closed w1 = true.
Proof.
  unfold _aclose. destruct (closed w) eqn:Hc.
  - intros H. injection H as <-. exact Hc.
  - unfold bind.
    destruct (close_all cursor_close (_cursors w) w) as [[e | []] w'];
      [discriminate |].
    unfold client_aclose, mark_closed. simpl. intros H. injection H as <-.
    reflexivity.
Qed.

(** [_aclose] is its part before the await followed by its part after. *)
Lemma _aclose_segments (w : World) :
  _aclose cursor_close w
  = (go <- _aclose_until_await cursor_close ;;
     if go : bool then _aclose_after_await else ret tt) w.
Proof.
  unfold _aclose, _aclose_until_await, _aclose_after_await, bind, ret.
  destruct (closed w); [reflexivity |].
  destruct (close_all cursor_close (_cursors w) w) as [[e | []] w'];
    reflexivity.
Qed.

End CloseCascade.

(** C4, as the code has it. Closing a cursor that is already closed, or no
    longer tracked, raises nothing, so the cascade over an open connection
    completes whichever of its cursors were closed before; an exception
    raised by the [close] of a cursor is not caught: it leaves [_aclose] at
    once, with the later cursors, the client and the closed flag as they
    were at that moment. *)
Theorem close_cascade_failure_handling :
  (forall c w,
     fst (Cursor_close c w) = inr tt
     /\ (cursor_closed w !! c = Some true -> c ∉ _cursors w ->
         Cursor_close c w = (inr tt, w)))
  /\ (forall w,
        closed w = false ->
        exists w',
          aclose w = (inr tt, w')
          /\ _cursors w' = [] /\ client_closed w' = true /\ closed w' = true
          /\ forall c, c ∈ _cursors w -> cursor_closed w' !! c = Some true)
  /\ (forall (cursor_close : cursor_ref -> M World unit)
             (done rest : list cursor_ref) (c : cursor_ref) (e : exn)
             (w w1 w2 : World),
        closed w = false ->
        _cursors w = (done ++ c :: rest)%list ->
        close_all cursor_close done w = (inr tt, w1) ->
        cursor_close c w1 = (inl e, w2) ->
        _aclose cursor_close w = (inl e, w2)).
Proof.
  refine (conj _ (conj _ _)).
  - intros c w. rewrite Cursor_close_effect. split; [reflexivity |].
    intros Hcl Hn. unfold with_cursors, discard.
    rewrite list_remove_absent by exact Hn.
    rewrite insert_id by exact Hcl. destruct w; reflexivity.
  - intros w Hopen. rewrite (aclose_open_effect w Hopen).
    eexists. refine (conj eq_refl _). simpl.
    repeat (split; [reflexivity |]).
    intros c Hin. rewrite mark_all_lookup.
    rewrite bool_decide_eq_true_2 by exact Hin. reflexivity.
  - intros cursor_close done rest c e w w1 w2 Hopen Hl Hdone Hfail.
    unfold _aclose. rewrite Hopen, Hl. unfold bind at 1.
    rewrite (close_all_stops_at_failure cursor_close done rest c e w w1 w2
               Hdone Hfail).
    reflexivity.
Qed.

Lemma close_cascade_failure_handling_witness :
  let w := run [call_cursor; call_cursor] new_connection in
  _aclose (failing_close 1%nat) w
  = (inl (RuntimeError "close failed"), snd (Cursor_close 0%nat w)).
Proof.
  intros w.
  apply (proj2 (proj2 close_cascade_failure_handling)
           (failing_close 1%nat) [0%nat] [] 1%nat (RuntimeError "close failed")
           w (snd (Cursor_close 0%nat w)) (snd (Cursor_close 0%nat w)));
    reflexivity.
Defined.

(** C4 as stated fails: when the [close] of the first of two tracked
    cursors raises, the second cursor is not closed, the client is not torn
    down and the connection is not marked closed. *)
Lemma failing_cursor_close_aborts_close :
  let w := run [call_cursor; call_cursor] new_connection in
  exists w',
    _aclose (failing_close 0%nat) w = (inl (RuntimeError "close failed"), w')
    /\ cursor_closed w' !! 1%nat = Some false
    /\ _cursors w' = [0%nat; 1%nat]
    /\ client_closed w' = false
    /\ closed w' = false.
Proof. eexists. repeat split. Qed.

(** C7. Closing a connection that is already closed raises nothing and
    changes nothing, whatever the class of its cursors; in particular a
    second close right after one that completed is such a call. *)
Theorem close_is_idempotent (cursor_close : cursor_ref -> M World unit)
    (w : World) :
  (closed w = true -> _aclose cursor_close w = (inr tt, w))
  /\ (forall w1, _aclose cursor_close w = (inr tt, w1) ->
                 _aclose cursor_close w1 = (inr tt, w1)).
Proof.
  split.
  - apply _aclose_closed.
  - intros w1 H. apply _aclose_closed.
    eapply _aclose_completed_closed; eauto.
Qed.

Lemma close_is_idempotent_witness :
  let w := run [call_cursor; call_cursor] new_connection in
  aclose (snd (aclose w)) = (inr tt, snd (aclose w)).
Proof.
  intros w.
  apply (proj2 (close_is_idempotent Cursor_close w) (snd (aclose w))).
  reflexivity.
Defined.

(** ** Close and concurrent cursor creation *)

(** The order of the steps of a close with cursors of class [Cursor]: when
    it is suspended every snapshotted cursor is closed while the client and
    the flag are untouched; the client is torn down next and the flag is
    set last. *)
Lemma close_steps_in_order (w : World) :
  closed w = false ->
  exists w1 w2 w3,
    _aclose_until_await Cursor_close w = (inr true, w1)
    /\ (forall c, c ∈ _cursors w -> cursor_closed w1 !! c = Some true)
    /\ client_closed w1 = client_closed w /\ closed w1 = false
    /\ client_aclose w1 = (inr tt, w2)
    /\ client_closed w2 = true /\ closed w2 = false
    /\ mark_closed w2 = (inr tt, w3)
    /\ closed w3 = true
    /\ aclose w = (inr tt, w3).
Proof.
  intros Hopen.
  pose (w1 := with_cursors w (mark_all (_cursors w) (cursor_closed w))
                             (discard_all (_cursors w) (_cursors w))).
  assert (Huntil : _aclose_until_await Cursor_close w = (inr true, w1)).
  { unfold _aclose_until_await. rewrite Hopen. unfold bind.
    rewrite close_all_Cursor_close. reflexivity. }
  exists w1, (snd (client_aclose w1)), (snd (mark_closed (snd (client_aclose w1)))).
  split_and!; try reflexivity; try assumption.
  - intros c Hin. simpl. rewrite mark_all_lookup.
    rewrite bool_decide_eq_true_2 by exact Hin. reflexivity.
  - unfold aclose. rewrite _aclose_segments. unfold bind at 1.
    rewrite Huntil. reflexivity.
Qed.

(** C8, where the code falls short of it. A close is suspended in
    [await self._client.aclose()] with the flag still unset; a [cursor()]
    call made by another task at that moment passes the flag check and
    registers a cursor that is not in the snapshot; when the close resumes
    and sets the flag, the connection is closed and still tracks an open
    cursor. *)
Theorem cursor_registered_while_close_awaits :
  exists w1 c w2 w3,
    _aclose_until_await Cursor_close new_connection = (inr true, w1)
    /\ _cursor w1 = (inr c, w2)
    /\ (c ∉ _cursors new_connection)
    /\ _aclose_after_await w2 = (inr tt, w3)
    /\ closed w3 = true
    /\ _cursors w3 = [c]
    /\ cursor_closed w3 !! c = Some false.
Proof.
  eexists _, _, _, _.
  repeat (split; [reflexivity |]).
  split; [apply not_elem_of_nil |].
  repeat (split; [reflexivity |]). reflexivity.
Qed.

(** C1, where the code falls short of it. A connection has one cursor; its
    close closes that cursor and is suspended in
    [await self._client.aclose()]; a [cursor()] call made by another task
    at that moment is accepted; the close resumes and completes. After
    that the connection is closed and [cursor()] raises
    [ConnectionClosedError], but the tracked list is not empty and the
    cursor created in between reports open. *)
Theorem close_completes_with_open_cursor :
  exists w0 w1 c w2 w3,
    run [call_cursor] new_connection = w0
    /\ _aclose_until_await Cursor_close w0 = (inr true, w1)
    /\ cursor_closed w1 !! 0%nat = Some true
    /\ _cursor w1 = (inr c, w2)
    /\ _aclose_after_await w2 = (inr tt, w3)
    /\ closed w3 = true
    /\ client_closed w3 = true
    /\ _cursors w3 = [c]
    /\ cursor_closed w3 !! c = Some false
    /\ _cursor w3
       = (inl (ConnectionClosedError
                 "Unable to create cursor: connection closed"), w3).
Proof.
  eexists _, _, _, _, _.
  repeat (split; [reflexivity |]). reflexivity.
Qed.

(** ** Token caching *)

Lemma get_token_valid (margin now : Z) (exchange : result (string * Z))
    (a : Auth) (store : gmap Identity Token) (t : Token) :
  token a = Some t -> valid margin now t = true ->
  get_token margin now exchange (a, store) = (inr (value t), (a, store)).
Proof. intros Ht Hv. unfold get_token. rewrite Ht, Hv. reflexivity. Qed.

Lemma get_token_refresh (margin now : Z) (exchange : result (string * Z))
    (a : Auth) (store : gmap Identity Token) :
  needs_refresh margin now a = true ->
  get_token margin now exchange (a, store)
  = refresh_token now exchange (a, store).
Proof.
  unfold needs_refresh, get_token. destruct (token a) as [t |]; [| reflexivity].
  destruct (valid margin now t); [discriminate | reflexivity].
Qed.

(** C9. With caching enabled, a successful exchange stores the token under
    the credential identity, and the token read back from the store is the
    one the auth state hands out for the requests that follow; with caching
    disabled [get_token] leaves the store exactly as it was, a stale record
    included, and does not depend on what the store holds. *)
Theorem token_cache_round_trip (margin now : Z)
    (exchange : result (string * Z)) (a : Auth)
    (store : gmap Identity Token) :
  (use_token_cache a = true ->
   needs_refresh margin now a = true ->
   cached_record now a store = None ->
   forall v ttl,
     exchange = inr (v, ttl) ->
     let t := {| value := v; expires_at := now + ttl |} in
     let store' := <[ credential a := t ]> store in
     get_token margin now exchange (a, store) = (inr v, (adopt a t, store'))
     /\ store' !! credential (adopt a t) = Some t
     /\ forall later exchange',
          later < now + ttl - margin ->
          get_token margin later exchange' (adopt a t, store')
          = (inr (value t), (adopt a t, store')))
  /\ (use_token_cache a = false ->
      snd (snd (get_token margin now exchange (a, store))) = store
      /\ forall store2,
           fst (get_token margin now exchange (a, store2))
           = fst (get_token margin now exchange (a, store))).
Proof.
  split.
  - intros Hcache Hrefresh Hnone v ttl Hex t store'.
    refine (conj _ (conj _ _)).
    + rewrite get_token_refresh by exact Hrefresh.
      unfold refresh_token. rewrite Hnone.
      unfold exchange_credentials. rewrite Hex, Hcache. reflexivity.
    + apply lookup_insert_eq.
    + intros later exchange' Hlater.
      apply get_token_valid; [reflexivity |].
      unfold valid. simpl. apply Z.ltb_lt. exact Hlater.
  - intros Hoff.
    assert (Hrec : forall st, cached_record now a st = None).
    { intros st. unfold cached_record. rewrite Hoff. reflexivity. }
    unfold get_token, refresh_token, exchange_credentials.
    rewrite !Hrec, Hoff. split.
    + destruct (token a) as [t |]; [destruct (valid margin now t) |];
        try reflexivity; destruct exchange as [e | [v ttl]]; reflexivity.
    + intros store2. rewrite Hrec.
      destruct (token a) as [t |]; [destruct (valid margin now t) |];
        try reflexivity; destruct exchange as [e | [v ttl]]; reflexivity.
Qed.

Lemma token_cache_round_trip_witness :
  (let t := {| value := "access_token"; expires_at := 100 + 3600 |} in
   get_token 60 100 (inr ("access_token", 3600)) (service_account true, ∅)
   = (inr "access_token",
      (adopt (service_account true) t,
       <[ ("client_id", "client_secret") := t ]> ∅)))
  /\ snd (snd (get_token 60 100 (inr ("access_token", 3600))
                 (service_account false, stale_store)))
     = stale_store.
Proof.
  split.
  - intros t.
    destruct (token_cache_round_trip 60 100 (inr ("access_token", 3600))
                (service_account true) ∅) as [Hon _].
    apply (Hon eq_refl eq_refl); reflexivity.
  - apply (proj2 (token_cache_round_trip 60 100 (inr ("access_token", 3600))
                    (service_account false) stale_store) eq_refl).
Defined.

(** ** The account id of a client *)

Lemma account_id_sent (transport : Transport) (acct : option string)
    (s : ClientState) :
  account_id_cache s = None ->
  sent (snd (account_id transport acct s))
  = (sent s ++ [AccountByName acct])%list.
Proof.
  intros Hc. rewrite (account_id_uncached transport acct s Hc).
  destruct (fst (account_id transport acct no_traffic)); reflexivity.
Qed.

Lemma client_uses_cached (transport : Transport) (acct : option string)
    (us : list ClientUse) (s : ClientState) (a : json) :
  account_id_cache s = Some a ->
  account_id_cache (client_uses transport acct us s) = Some a
  /\ sent (client_uses transport acct us s)
     = (sent s ++ requests_of us)%list.
Proof.
  revert s. induction us as [| u us IH]; intros s Hc.
  - simpl. rewrite app_nil_r. auto.
  - destruct u as [req |]; simpl.
    + destruct (IH {| account_id_cache := account_id_cache s;
                      sent := sent s ++ [req] |} Hc) as [Hc' Hs].
      split; [exact Hc' |]. rewrite Hs. simpl. rewrite <- app_assoc.
      reflexivity.
    + rewrite (account_id_cached transport acct s a Hc). simpl.
      apply IH. exact Hc.
Qed.

(** X1. Once [account_id] has answered, the client keeps that id for good:
    after any further requests and reads of the account id, against any
    backend, a read answers the same id, and the only requests sent since
    are the ones asked for, never another account lookup. The first read
    sent exactly one. *)
Theorem account_id_memoised (transport transport' : Transport)
    (acct : option string) (s s1 : ClientState) (a : json)
    (us : list ClientUse) :
  account_id transport acct s = (inr a, s1) ->
  let s2 := client_uses transport' acct us s1 in
  account_id transport' acct s2 = (inr a, s2)
  /\ sent s2 = (sent s1 ++ requests_of us)%list
  /\ (account_id_cache s = None ->
      sent s1 = (sent s ++ [AccountByName acct])%list).
Proof.
  intros H s2.
  assert (Hc1 : account_id_cache s1 = Some a).
  { destruct (account_id_cache s) as [a0 |] eqn:Hc.
    - rewrite (account_id_cached transport acct s a0 Hc) in H.
      injection H as <- <-. exact Hc.
    - rewrite (account_id_uncached transport acct s Hc) in H.
      destruct (fst (account_id transport acct no_traffic));
        [discriminate |]. injection H as <- <-. reflexivity. }
  destruct (client_uses_cached transport' acct us s1 a Hc1) as [Hc2 Hs2].
  refine (conj _ (conj Hs2 _)).
  - apply account_id_cached. exact Hc2.
  - intros Hc. pose proof (account_id_sent transport acct s Hc) as Hs.
    rewrite H in Hs. exact Hs.
Qed.

Lemma account_id_memoised_witness :
  let s1 := snd (account_id healthy_backend None no_traffic) in
  let s2 := client_uses no_backend None
              [use_get (EngineByName (JStr "acc") "e1"); use_account_id;
               use_get (EngineById (JStr "acc") (JStr "eid"))] s1 in
  account_id no_backend None s2 = (inr (JStr "acc"), s2)
  /\ sent s2 = [AccountByName None; EngineByName (JStr "acc") "e1";
                EngineById (JStr "acc") (JStr "eid")].
Proof.
  intros s1 s2.
  destruct (account_id_memoised healthy_backend no_backend None no_traffic
              s1 (JStr "acc")
              [use_get (EngineByName (JStr "acc") "e1"); use_account_id;
               use_get (EngineById (JStr "acc") (JStr "eid"))] eq_refl)
    as (Hagain & Hsent & _).
  split; [exact Hagain | exact Hsent].
Defined.

(** X2. A resolution that fails caches nothing: the state keeps no account
    id, one request was sent, and the next read sends the request again. *)
Theorem account_id_failure_not_cached (transport transport' : Transport)
    (acct : option string) (s s1 : ClientState) (e : exn) :
  account_id transport acct s = (inl e, s1) ->
  account_id_cache s1 = None
  /\ sent s1 = (sent s ++ [AccountByName acct])%list
  /\ sent (snd (account_id transport' acct s1))
     = (sent s ++ [AccountByName acct; AccountByName acct])%list.
Proof.
  intros H.
  destruct (account_id_cache s) as [a0 |] eqn:Hc.
  { rewrite (account_id_cached transport acct s a0 Hc) in H. discriminate. }
  rewrite (account_id_uncached transport acct s Hc) in H.
  destruct (fst (account_id transport acct no_traffic)); [| discriminate].
  injection H as <- <-. refine (conj eq_refl (conj eq_refl _)).
  rewrite account_id_sent by reflexivity. simpl.
  rewrite <- app_assoc. reflexivity.
Qed.

Lemma account_id_failure_not_cached_witness :
  let s1 := snd (account_id no_backend None no_traffic) in
  account_id_cache s1 = None
  /\ sent s1 = [AccountByName None]
  /\ sent (snd (account_id healthy_backend None s1))
     = [AccountByName None; AccountByName None].
Proof.
  intros s1.
  apply (account_id_failure_not_cached no_backend healthy_backend None
           no_traffic s1 (RequestError "unreachable")).
  reflexivity.
Defined.

Lemma account_lookup_outcomes_aux (transport : Transport)
    (acct : option string) (r : Response) :
  transport (AccountByName acct) = inr r ->
  fst (account_id transport acct no_traffic)
  = if status_code r =? 404 then inl (AccountNotFoundError acct)
    else match raise_for_status r with
         | inl e => inl e
         | inr _ =>
             match response_json r with
             | inl e => inl e
             | inr j => getitem j "id"
             end
         end.
Proof.
  intros Hr. unfold account_id, compute_account_id, client_get. simpl.
  unfold bind, lift, raise. rewrite Hr. simpl.
  destruct (status_code r =? 404); [reflexivity |].
  destruct (raise_for_status r); [reflexivity |].
  destruct (response_json r) as [e | j]; [reflexivity |]. simpl.
  destruct (getitem j "id"); reflexivity.
Qed.

(** X3. What the account lookup makes of an answer: a 404 is
    [AccountNotFoundError] naming the account whatever the body holds, any
    other status outside 200 to 299 is [HTTPStatusError] whatever the body
    holds, and on a success a body that is not JSON is [JSONDecodeError], a
    JSON object without the key "id" is [KeyError], and JSON that is not an
    object is [TypeError]. *)
Theorem account_lookup_outcomes (transport : Transport)
    (acct : option string) (s : ClientState) (r : Response) :
  account_id_cache s = None ->
  transport (AccountByName acct) = inr r ->
  fst (account_id transport acct s)
  = if status_code r =? 404 then inl (AccountNotFoundError acct)
    else if (200 <=? status_code r) && (status_code r <=? 299)
    then match body r with
         | None => inl JSONDecodeError
         | Some (JObj m) =>
             match m !! "id" with
             | Some a => inr a
             | None => inl (KeyError "id")
             end
         | Some _ => inl TypeError
         end
    else inl (HTTPStatusError (status_code r)).
Proof.
  intros Hc Hr. unfold account_id, compute_account_id, client_get.
  rewrite Hc. unfold bind, lift, raise. rewrite Hr. simpl.
  destruct (status_code r =? 404); [reflexivity |].
  unfold raise_for_status, response_json, is_error.
  destruct ((200 <=? status_code r) && (status_code r <=? 299));
    [| reflexivity]. simpl.
  destruct (body r) as [j |]; [| reflexivity]. simpl.
  destruct j as [| | | | | m]; simpl; try reflexivity.
  destruct (m !! "id"); reflexivity.
Qed.

Lemma account_lookup_outcomes_witness :
  fst (account_id (backend_account 404 (obj1 "id" (JStr "acc"))) (Some "a1")
         no_traffic)
    = inl (AccountNotFoundError (Some "a1"))
  /\ fst (account_id (backend_account 200 (obj1 "name" (JStr "acc"))) None
            no_traffic)
     = inl (KeyError "id")
  /\ fst (account_id (backend_account 301 (obj1 "id" (JStr "acc"))) None
            no_traffic)
     = inl (HTTPStatusError 301).
Proof.
  refine (conj _ (conj _ _)).
  - rewrite (account_lookup_outcomes _ (Some "a1") no_traffic _
               eq_refl eq_refl). reflexivity.
  - rewrite (account_lookup_outcomes _ None no_traffic _ eq_refl eq_refl).
    reflexivity.
  - rewrite (account_lookup_outcomes _ None no_traffic _ eq_refl eq_refl).
    reflexivity.
Defined.

(** ** Requests sent during resolution *)

Lemma lift_bind {S A B} (r : result A) (k : A -> M S B) (s : S) :
  (x <- lift r ;; k x) s
  = match r with
    | inl e => (inl e, s)
    | inr x => k x s
    end.
Proof. unfold bind, lift. destruct r; reflexivity. Qed.

(** One [get], [raise_for_status] and [json()] followed by the rest. *)
Lemma get_checked_bind {B} (transport : Transport) (req : Request)
    (k : json -> M ClientState B) (s : ClientState) :
  (response <- client_get transport req ;;
   lift (raise_for_status response) ;;;
   j <- lift (response_json response) ;;
   k j) s
  = let s' := {| account_id_cache := account_id_cache s;
                 sent := sent s ++ [req] |} in
    match checked_json (transport req) with
    | inl e => (inl e, s')
    | inr j => k j s'
    end.
Proof.
  unfold bind at 1. unfold client_get, checked_json.
  destruct (transport req) as [e | r]; simpl; [reflexivity |].
  rewrite lift_bind. destruct (raise_for_status r); [reflexivity |].
  rewrite lift_bind. destruct (response_json r); reflexivity.
Qed.

Lemma _get_engine_endpoint_run (transport : Transport)
    (acct : option string) (eid a : json) (s : ClientState) :
  account_id_cache s = Some a ->
  _get_engine_endpoint transport acct eid s
  = (fetch_field transport (EngineById a eid) "engine" "endpoint",
     {| account_id_cache := Some a;
        sent := sent s ++ [EngineById a eid] |}).
Proof.
  intros Hc. unfold _get_engine_endpoint. unfold bind at 1.
  rewrite (account_id_cached transport acct s a Hc).
  rewrite get_checked_bind. simpl. rewrite Hc.
  unfold fetch_field, getitem2.
  destruct (checked_json (transport (EngineById a eid))) as [e | j];
    [reflexivity |].
  rewrite lift_bind. destruct (getitem j "engine"); reflexivity.
Qed.

(** The [try] block of the by-name path, with the requests it sent. *)
Lemma _resolve_engine_url_body_run (transport : Transport) (name : string)
    (acct : option string) (s : ClientState) :
  account_id_cache s = None ->
  _resolve_engine_url_body transport name acct s
  = match fst (account_id transport acct no_traffic) with
    | inl e => (inl e, client_after None s [AccountByName acct])
    | inr a =>
        match fetch_field transport (EngineByName a name)
                "engine_id" "engine_id" with
        | inl e =>
            (inl e, client_after (Some a) s
                      [AccountByName acct; EngineByName a name])
        | inr eid =>
            (fetch_field transport (EngineById a eid) "engine" "endpoint",
             client_after (Some a) s
               [AccountByName acct; EngineByName a name; EngineById a eid])
        end
    end.
Proof.
  intros Hc. unfold _resolve_engine_url_body. unfold bind at 1.
  rewrite (account_id_uncached transport acct s Hc).
  destruct (fst (account_id transport acct no_traffic)) as [e | a];
    [reflexivity |].
  rewrite get_checked_bind. unfold fetch_field, getitem2, client_after. simpl.
  destruct (checked_json (transport (EngineByName a name))) as [e | j].
  { rewrite <- app_assoc. reflexivity. }
  rewrite lift_bind. destruct (getitem j "engine_id") as [e | outer].
  { rewrite <- app_assoc. reflexivity. }
  rewrite lift_bind. destruct (getitem outer "engine_id") as [e | eid].
  { rewrite <- app_assoc. reflexivity. }
  rewrite (_get_engine_endpoint_run transport acct eid a) by reflexivity.
  simpl. rewrite <- !app_assoc. reflexivity.
Qed.

(** The handlers of the by-name path leave the client as it is. *)
Lemma _resolve_engine_url_state (transport : Transport) (name : string)
    (acct : option string) (s : ClientState) :
  snd (_resolve_engine_url transport name acct s)
  = snd (_resolve_engine_url_body transport name acct
           {| account_id_cache := None; sent := sent s |}).
Proof.
  unfold _resolve_engine_url, with_new_client, try_except.
  destruct (_resolve_engine_url_body _ _ _ _) as [[e | url] s'];
    [| reflexivity].
  unfold _resolve_engine_url_handler, raise. destruct e; try reflexivity.
  match goal with |- context [negb ?b] => destruct b end; reflexivity.
Qed.

(** X4. When its three lookups succeed, resolution by name answers the
    endpoint read from the last one and has sent exactly the account
    lookup, the lookup by name and the endpoint fetch, in this order: the
    account id is looked up once although it is used twice. *)
Theorem by_name_resolution_success (transport : Transport) (name : string)
    (acct : option string) (s : ClientState) (a eid url : json) :
  fst (account_id transport acct no_traffic) = inr a ->
  fetch_field transport (EngineByName a name) "engine_id" "engine_id"
    = inr eid ->
  fetch_field transport (EngineById a eid) "engine" "endpoint" = inr url ->
  _resolve_engine_url transport name acct s
  = (inr url,
     {| account_id_cache := Some a;
        sent := sent s ++ [AccountByName acct; EngineByName a name;
                           EngineById a eid] |}).
Proof.
  intros Ha Hn He.
  unfold _resolve_engine_url, with_new_client, try_except.
  rewrite _resolve_engine_url_body_run by reflexivity.
  rewrite Ha, Hn, He. reflexivity.
Qed.

Lemma by_name_resolution_success_witness :
  _resolve_engine_url healthy_backend "e1" None no_traffic
  = (inr (JStr "e1.example"),
     {| account_id_cache := Some (JStr "acc");
        sent := [AccountByName None; EngineByName (JStr "acc") "e1";
                 EngineById (JStr "acc") (JStr "eid")] |}).
Proof.
  apply (by_name_resolution_success healthy_backend "e1" None no_traffic
           (JStr "acc") (JStr "eid") (JStr "e1.example")); reflexivity.
Defined.

(** X5. Whatever the backend answers, resolution by name sends the account
    lookup first and at most two requests after it, each of them an engine
    lookup: it never asks for a database or its bindings. *)
Theorem by_name_requests_bounded (transport : Transport) (name : string)
    (acct : option string) (s : ClientState) :
  exists rest,
    sent (snd (_resolve_engine_url transport name acct s))
    = (sent s ++ AccountByName acct :: rest)%list
    /\ (length rest <= 2)%nat
    /\ Forall (fun req => is_engine_lookup req = true) rest.
Proof.
  rewrite _resolve_engine_url_state.
  rewrite _resolve_engine_url_body_run by reflexivity.
  destruct (fst (account_id transport acct no_traffic)) as [e | a].
  { exists []. simpl. repeat split; [lia | constructor]. }
  destruct (fetch_field transport (EngineByName a name) _ _) as [e | eid].
  - exists [EngineByName a name]. simpl. repeat split; [lia |].
    repeat constructor.
  - exists [EngineByName a name; EngineById a eid]. simpl.
    repeat split; [lia |]. repeat constructor.
Qed.

Lemma getitem_failure (j : json) (k : string) (e : exn) :
  getitem j k = inl e -> e = TypeError \/ e = KeyError k.
Proof.
  unfold getitem. destruct j as [| | | | | m];
    try (intros H; injection H as <-; left; reflexivity).
  destruct (m !! k); [discriminate |].
  intros H; injection H as <-. right. reflexivity.
Qed.

Lemma getitem2_failure (j : json) (k1 k2 : string) (e : exn) :
  getitem2 j k1 k2 = inl e ->
  e = TypeError \/ e = KeyError k1 \/ e = KeyError k2.
Proof.
  unfold getitem2. destruct (getitem j k1) as [e1 | v] eqn:H1.
  - intros H; injection H as <-.
    destruct (getitem_failure _ _ _ H1); auto.
  - intros H2. destruct (getitem_failure _ _ _ H2); auto.
Qed.

Lemma fetch_field_shape_failure (transport : Transport) (req : Request)
    (k1 k2 : string) (j : json) (e : exn) :
  checked_json (transport req) = inr j ->
  getitem2 j k1 k2 = inl e ->
  fetch_field transport req k1 k2 = inl e.
Proof. intros Hj He. unfold fetch_field. rewrite Hj. exact He. Qed.

(** X6. On the by-name path an answer of the wrong shape is not wrapped:
    when the answer to the lookup by name or to the endpoint fetch is JSON
    without the expected keys, the [KeyError] or [TypeError] of the
    subscript leaves [_resolve_engine_url] as it is, not as
    [InterfaceError]. *)
Theorem by_name_shape_errors_pass_through (transport : Transport)
    (name : string) (acct : option string) (s : ClientState)
    (a : json) (e : exn) :
  fst (account_id transport acct no_traffic) = inr a ->
  (exists j,
     checked_json (transport (EngineByName a name)) = inr j
     /\ getitem2 j "engine_id" "engine_id" = inl e)
  \/ (exists eid j,
        fetch_field transport (EngineByName a name) "engine_id" "engine_id"
          = inr eid
        /\ checked_json (transport (EngineById a eid)) = inr j
        /\ getitem2 j "engine" "endpoint" = inl e) ->
  fst (_resolve_engine_url transport name acct s) = inl e
  /\ (e = TypeError \/ exists key, e = KeyError key).
Proof.
  intros Ha Hshape.
  assert (Hkind : e = TypeError \/ exists key, e = KeyError key).
  { destruct Hshape as [(j & _ & He) | (eid & j & _ & _ & He)];
      destruct (getitem2_failure _ _ _ _ He) as [-> | [-> | ->]]; eauto. }
  split; [| exact Hkind].
  unfold _resolve_engine_url, with_new_client, try_except.
  rewrite _resolve_engine_url_body_run by reflexivity. rewrite Ha.
  destruct Hshape as [(j & Hj & He) | (eid & j & Hid & Hj & He)].
  - rewrite (fetch_field_shape_failure _ _ _ _ _ _ Hj He).
    destruct Hkind as [-> | [key ->]]; reflexivity.
  - rewrite Hid. rewrite (fetch_field_shape_failure _ _ _ _ _ _ Hj He).
    destruct Hkind as [-> | [key ->]]; reflexivity.
Qed.

Lemma by_name_shape_errors_pass_through_witness :
  fst (_resolve_engine_url backend_name_lookup_empty "e1" None no_traffic)
  = inl (KeyError "engine_id").
Proof.
  apply (by_name_shape_errors_pass_through backend_name_lookup_empty "e1"
           None no_traffic (JStr "acc") (KeyError "engine_id")).
  - reflexivity.
  - left. exists (JObj ∅). split; reflexivity.
Defined.

(** ** Requests and shapes on the database-default path *)

(** The [try] block of the database-default path, with the requests it
    sent. *)
Lemma _get_database_default_engine_url_body_run (transport : Transport)
    (db : string) (acct : option string) (s : ClientState) :
  account_id_cache s = None ->
  _get_database_default_engine_url_body transport db acct s
  = match fst (account_id transport acct no_traffic) with
    | inl e => (inl e, client_after None s [AccountByName acct])
    | inr a =>
        match fetch_field transport (DatabaseByName a db)
                "database_id" "database_id" with
        | inl e =>
            (inl e, client_after (Some a) s
                      [AccountByName acct; DatabaseByName a db])
        | inr did =>
            let three := client_after (Some a) s
                           [AccountByName acct; DatabaseByName a db;
                            Bindings a did] in
            match fetch_defaults transport a did with
            | inl e => (inl e, three)
            | inr [] =>
                (inl (FireboltDatabaseError
                        ("Database " ++ db ++ " has no default engines")),
                 three)
            | inr (first :: _) =>
                match getitem2 first "id" "engine_id" with
                | inl e => (inl e, three)
                | inr eid =>
                    (fetch_field transport (EngineById a eid)
                       "engine" "endpoint",
                     client_after (Some a) s
                       [AccountByName acct; DatabaseByName a db;
                        Bindings a did; EngineById a eid])
                end
            end
        end
    end.
Proof.
  intros Hc. unfold _get_database_default_engine_url_body. unfold bind at 1.
  rewrite (account_id_uncached transport acct s Hc).
  destruct (fst (account_id transport acct no_traffic)) as [e | a];
    [reflexivity |].
  rewrite get_checked_bind.
  unfold fetch_field at 1, getitem2 at 1, client_after. simpl.
  destruct (checked_json (transport (DatabaseByName a db))) as [e | j].
  { rewrite <- app_assoc. reflexivity. }
  rewrite lift_bind. destruct (getitem j "database_id") as [e | outer].
  { rewrite <- app_assoc. reflexivity. }
  rewrite lift_bind. destruct (getitem outer "database_id") as [e | did].
  { rewrite <- app_assoc. reflexivity. }
  rewrite get_checked_bind. unfold fetch_defaults. simpl.
  rewrite <- !app_assoc. simpl.
  destruct (checked_json (transport (Bindings a did))) as [e | j2];
    [reflexivity |].
  rewrite lift_bind. destruct (getitem j2 "edges") as [e | edges];
    [reflexivity |].
  rewrite lift_bind. destruct (iterate edges) as [e | items]; [reflexivity |].
  rewrite lift_bind.
  destruct (default_bindings items) as [e | [| first rest]];
    [reflexivity | reflexivity |].
  unfold getitem2. rewrite lift_bind.
  destruct (getitem first "id") as [e | ident]; [reflexivity |].
  rewrite lift_bind.
  destruct (getitem ident "engine_id") as [e | eid]; [reflexivity |].
  rewrite (_get_engine_endpoint_run transport acct eid a) by reflexivity.
  simpl. rewrite <- !app_assoc. reflexivity.
Qed.

Lemma _get_database_default_engine_url_state (transport : Transport)
    (db : string) (acct : option string) (s : ClientState) :
  snd (_get_database_default_engine_url transport db acct s)
  = snd (_get_database_default_engine_url_body transport db acct
           {| account_id_cache := None; sent := sent s |}).
Proof.
  unfold _get_database_default_engine_url, with_new_client, try_except.
  destruct (_get_database_default_engine_url_body _ _ _ _)
    as [[e | url] s']; [| reflexivity].
  unfold _get_database_default_engine_url_handler, raise.
  destruct e; reflexivity.
Qed.

(** X7. Whatever the backend answers, the database-default path sends the
    account lookup first and at most three requests after it, none of them
    a lookup of an engine by name; and when the bindings hold no default
    engine, exactly the account, database and bindings lookups were sent:
    no endpoint is fetched. *)
Theorem default_path_requests_bounded (transport : Transport) (db : string)
    (acct : option string) (s : ClientState) :
  (exists rest,
     sent (snd (_get_database_default_engine_url transport db acct s))
     = (sent s ++ AccountByName acct :: rest)%list
     /\ (length rest <= 3)%nat
     /\ Forall (fun req => is_default_path_lookup req = true) rest)
  /\ (forall a did,
        fst (account_id transport acct no_traffic) = inr a ->
        fetch_field transport (DatabaseByName a db)
          "database_id" "database_id" = inr did ->
        fetch_defaults transport a did = inr [] ->
        _get_database_default_engine_url transport db acct s
        = (inl (FireboltDatabaseError
                  ("Database " ++ db ++ " has no default engines")),
           client_after (Some a) s
             [AccountByName acct; DatabaseByName a db; Bindings a did])).
Proof.
  split.
  - rewrite _get_database_default_engine_url_state.
    rewrite _get_database_default_engine_url_body_run by reflexivity.
    destruct (fst (account_id transport acct no_traffic)) as [e | a].
    { exists []. simpl. repeat split; [lia | constructor]. }
    destruct (fetch_field transport (DatabaseByName a db) _ _) as [e | did].
    { eexists [_]. simpl. repeat split; [lia | repeat constructor]. }
    cbv zeta.
    destruct (fetch_defaults transport a did) as [e | [| first rest]];
      try (eexists [_; _]; simpl; repeat split; [lia | repeat constructor]).
    destruct (getitem2 first "id" "engine_id") as [e | eid].
    + eexists [_; _]. simpl. repeat split; [lia | repeat constructor].
    + eexists [_; _; _]. simpl. repeat split; [lia | repeat constructor].
  - intros a did Ha Hd Hb.
    unfold _get_database_default_engine_url, with_new_client, try_except.
    rewrite _get_database_default_engine_url_body_run by reflexivity.
    rewrite Ha, Hd. cbv zeta. rewrite Hb. reflexivity.
Qed.

Lemma default_path_requests_bounded_witness :
  _get_database_default_engine_url backend_no_default "db1" None no_traffic
  = (inl (FireboltDatabaseError "Database db1 has no default engines"),
     client_after (Some (JStr "acc")) no_traffic
       [AccountByName None; DatabaseByName (JStr "acc") "db1";
        Bindings (JStr "acc") (JStr "did")]).
Proof.
  apply (proj2 (default_path_requests_bounded backend_no_default "db1" None
                  no_traffic) (JStr "acc") (JStr "did")); reflexivity.
Defined.

(** X8. On the database-default path a [KeyError] is wrapped but a
    [TypeError] is not: when an answer is JSON of the wrong kind, so that a
    subscript or the iteration over the edges raises [TypeError], that
    [TypeError] leaves [_get_database_default_engine_url] as it is. *)
Theorem default_path_TypeError_passes_through (transport : Transport)
    (db : string) (acct : option string) (s : ClientState) :
  default_path_failure transport db acct TypeError ->
  fst (_get_database_default_engine_url transport db acct s) = inl TypeError.
Proof.
  intros Hf.
  rewrite (default_path_failure_reaches_handler _ _ _ _ _ Hf). reflexivity.
Qed.

Lemma default_path_TypeError_passes_through_witness :
  fst (_get_database_default_engine_url backend_edges_null "db1" None
         no_traffic)
  = inl TypeError.
Proof.
  apply default_path_TypeError_passes_through.
  apply (dfails_at_bindings_lookup _ _ _ (JStr "acc") (JStr "did"));
    reflexivity.
Defined.

(** ** Further properties of [connect] *)

(** X9. With an engine URL and no engine name, [connect] sends nothing: it
    answers a connection to that URL, its scheme fixed, for the given
    database, credentials and API endpoint, whatever the backend is. *)
Theorem connect_by_url_sends_nothing (transport : Transport)
    (args : ConnectArgs) (auth : AuthTypes) (url : string) :
  str_truthy (database args) = true ->
  str_truthy (engine_name args) = false ->
  engine_url args = Some url ->
  url <> "" ->
  _get_auth (username args) (password args) (access_token args) = inr auth ->
  connect transport args
  = (inr {| init_engine_url := fix_url_schema url;
            init_database := database args;
            init_auth := auth;
            init_api_endpoint := fix_url_schema (api_endpoint args) |},
     []).
Proof.
  intros Hdb Hname Hurl Hne Hauth.
  unfold connect, connect_inner, _validate_engine_name_and_url.
  rewrite Hdb, Hname, Hurl, (str_truthy_nonempty url Hne). simpl.
  unfold bind, lift. rewrite Hauth. reflexivity.
Qed.

Lemma connect_by_url_sends_nothing_witness :
  connect no_backend args_by_url
  = (inr {| init_engine_url := "https://e1.example";
            init_database := Some "db1";
            init_auth := UsernamePassword (Some "u") (Some "p");
            init_api_endpoint := "https://host" |},
     []).
Proof.
  apply (connect_by_url_sends_nothing no_backend args_by_url
           (UsernamePassword (Some "u") (Some "p")) "e1.example");
    try reflexivity.
  discriminate.
Defined.

(** X10. The checks of [connect] come in a fixed order, each with its own
    message: a missing database is reported before anything else, two
    engine selectors are reported before the credentials are looked at,
    and of the two credential errors the one reported depends only on
    whether a token was given. *)
Theorem connect_validation_order (transport : Transport)
    (args : ConnectArgs) :
  (str_truthy (database args) = false ->
   connect transport args
   = (inl (ConfigurationError "database name is required to connect."), []))
  /\ (str_truthy (database args) = true ->
      str_truthy (engine_name args) = true ->
      str_truthy (engine_url args) = true ->
      connect transport args
      = (inl (ConfigurationError
                "Both engine_name and engine_url are provided. Provide only one to connect."),
         []))
  /\ (str_truthy (database args) = true ->
      str_truthy (engine_name args) && str_truthy (engine_url args) = false ->
      one_credential_form args = false ->
      connect transport args
      = (inl (ConfigurationError
                (if str_truthy (access_token args)
                 then "Either username/password and access_token are provided. Provide only one to authenticate"
                 else "Neither username/password nor access_token are provided. Provide one to authenticate")),
         [])).
Proof.
  unfold connect, connect_inner, _validate_engine_name_and_url.
  refine (conj _ (conj _ _)).
  - intros ->. reflexivity.
  - intros -> -> ->. reflexivity.
  - intros -> -> Hcred. simpl. unfold bind, lift, _get_auth.
    unfold one_credential_form in Hcred.
    destruct (str_truthy (username args)), (str_truthy (password args)),
      (str_truthy (access_token args)); simpl in *;
      try discriminate Hcred; reflexivity.
Qed.

Lemma connect_validation_order_witness :
  connect no_backend args_nothing
  = (inl (ConfigurationError "database name is required to connect."), []).
Proof.
  apply (proj1 (connect_validation_order no_backend args_nothing)).
  reflexivity.
Defined.

(** X11. [_get_auth] accepts exactly the two credential forms and hands
    back what it was given: username and password as they are when no
    token is given, the token when it comes alone. *)
Theorem _get_auth_accepts_exactly (u p t : option string) (auth : AuthTypes) :
  _get_auth u p t = inr auth
  <-> (str_truthy u = true /\ str_truthy p = true /\ str_truthy t = false
       /\ auth = UsernamePassword u p)
      \/ (str_truthy u = false /\ str_truthy p = false /\ str_truthy t = true
          /\ auth = FromToken t).
Proof.
  unfold _get_auth.
  destruct (str_truthy u), (str_truthy p), (str_truthy t); simpl; split;
    try (intros H; discriminate H);
    try (intros H; injection H as <-; auto 6; fail);
    try (intros [(H1 & H2 & H3 & H4) | (H1 & H2 & H3 & H4)];
         try discriminate; subst; reflexivity).
Qed.

(** X12. With an engine name and no engine URL, [connect] is the by-name
    resolver followed by the construction of the connection: an error of
    the resolver is the error of [connect], unchanged, and the requests
    sent are the resolver's. *)
Theorem connect_by_name_is_resolver (transport : Transport)
    (args : ConnectArgs) (auth : AuthTypes) :
  str_truthy (database args) = true ->
  str_truthy (engine_name args) = true ->
  str_truthy (engine_url args) = false ->
  _get_auth (username args) (password args) (access_token args) = inr auth ->
  connect transport args
  = let (r, st) := _resolve_engine_url transport
                     (str_value (engine_name args)) (account_name args)
                     no_traffic in
    (match r with
     | inl e => inl e
     | inr url => finish_connect args auth
                    (fix_url_schema (api_endpoint args)) url
     end, sent st).
Proof.
  intros Hdb Hname Hurl Hauth.
  unfold connect, connect_inner, _validate_engine_name_and_url.
  rewrite Hdb, Hname, Hurl. simpl. unfold bind, lift. rewrite Hauth. simpl.
  destruct (_resolve_engine_url _ _ _ _) as [[e | url] st]; simpl;
    [reflexivity |].
  destruct (finish_connect _ _ _ _); reflexivity.
Qed.

Lemma connect_by_name_is_resolver_witness :
  connect backend_endpoint_404 args_by_name
  = (inl (FireboltEngineError "Firebolt engine e1 does not exist."),
     [AccountByName None; EngineByName (JStr "acc") "e1";
      EngineById (JStr "acc") (JStr "eid")]).
Proof.
  rewrite (connect_by_name_is_resolver backend_endpoint_404 args_by_name
             (UsernamePassword (Some "u") (Some "p")));
    reflexivity.
Defined.

(** ** Further properties of the connection lifecycle *)

Lemma list_remove_first (c : cursor_ref) (l l' : list cursor_ref) :
  list_remove c l = Some l' ->
  exists l1 l2,
    l = (l1 ++ c :: l2)%list /\ (c ∉ l1) /\ l' = (l1 ++ l2)%list.
Proof.
  revert l'. induction l as [| y l IH]; intros l' H; [discriminate |].
  simpl in H. destruct (Nat.eqb_spec c y) as [-> | Hne].
  - injection H as <-. exists [], l. repeat split. apply not_elem_of_nil.
  - destruct (list_remove c l) as [rest |]; [| discriminate].
    injection H as <-. destruct (IH rest eq_refl) as (l1 & l2 & -> & Hn & ->).
    exists (y :: l1), l2. repeat split.
    intros [-> | Hin]%elem_of_cons; contradiction.
Qed.

Lemma list_remove_present (c : cursor_ref) (l : list cursor_ref) :
  c ∈ l -> is_Some (list_remove c l).
Proof.
  induction l as [| y l IH]; intros Hin.
  - apply elem_of_nil in Hin. contradiction.
  - simpl. destruct (Nat.eqb_spec c y) as [-> | Hne]; [eauto |].
    apply elem_of_cons in Hin as [-> | Hin]; [contradiction |].
    destruct (IH Hin) as [rest ->]. eauto.
Qed.

(** X13. [_remove_cursor] never raises and touches nothing but the list:
    a cursor that is not tracked leaves the connection as it is, and a
    tracked one loses its first occurrence, the cursors before and after it
    staying in place and in order. *)
Theorem _remove_cursor_first_occurrence (c : cursor_ref) (w : World) :
  exists l',
    _remove_cursor c w = (inr tt, with_cursors w (cursor_closed w) l')
    /\ (c ∉ _cursors w -> l' = _cursors w)
    /\ (c ∈ _cursors w ->
        exists l1 l2,
          _cursors w = (l1 ++ c :: l2)%list /\ (c ∉ l1)
          /\ l' = (l1 ++ l2)%list).
Proof.
  exists (discard c (_cursors w)).
  refine (conj (_remove_cursor_effect c w) (conj _ _)).
  - intros Hn. unfold discard. rewrite (list_remove_absent c _ Hn).
    reflexivity.
  - intros Hin. unfold discard.
    destruct (list_remove_present c _ Hin) as [l' Hl']. rewrite Hl'.
    apply list_remove_first. exact Hl'.
Qed.

Lemma _remove_cursor_first_occurrence_witness :
  _remove_cursor 5%nat (run [call_cursor; call_cursor] new_connection)
  = (inr tt, run [call_cursor; call_cursor] new_connection).
Proof.
  destruct (_remove_cursor_first_occurrence 5%nat
              (run [call_cursor; call_cursor] new_connection))
    as (l' & Hrun & Habsent & _).
  rewrite Hrun. rewrite Habsent; [reflexivity |].
  vm_compute. intros H. inversion H as [| ? ? ? H1]; subst.
  inversion H1 as [| ? ? ? H2]; subst. inversion H2.
Defined.

Lemma list_remove_NoDup (c : cursor_ref) (l l' : list cursor_ref) :
  NoDup l -> list_remove c l = Some l' -> NoDup l' /\ c ∉ l'.
Proof.
  intros Hnd Hr.
  destruct (list_remove_first c l l' Hr) as (l1 & l2 & -> & Hn1 & ->).
  apply NoDup_app in Hnd as (Hnd1 & Hdisj & Hnd2).
  apply NoDup_cons in Hnd2 as [Hn2 Hnd2]. split.
  - apply NoDup_app. refine (conj Hnd1 (conj _ Hnd2)).
    intros x Hx1 Hx2. apply (Hdisj x Hx1). apply elem_of_cons. right.
    exact Hx2.
  - intros [H | H]%elem_of_app; contradiction.
Qed.

Lemma discard_NoDup (c : cursor_ref) (l : list cursor_ref) :
  NoDup l -> NoDup (discard c l) /\ c ∉ discard c l.
Proof.
  intros Hnd. unfold discard. destruct (list_remove c l) as [l' |] eqn:Hr.
  - eapply list_remove_NoDup; eauto.
  - split; [exact Hnd |]. intros Hin.
    destruct (list_remove_present c l Hin) as [? H]. congruence.
Qed.

Lemma perform_tracks_open_cursors (w : World) (op : Call) :
  consistent w -> tracks_open_cursors w -> tracks_open_cursors (perform w op).
Proof.
  intros Hc [Hnd Hto]. destruct op as [| c | |]; simpl.
  - unfold _cursor. destruct (closed w); [split; assumption |]. simpl.
    split.
    + simpl. apply NoDup_app. refine (conj Hnd (conj _ _)).
      * intros x Hx ->%list_elem_of_singleton.
        pose proof (tracked_allocated w Hc _ Hx). lia.
      * apply NoDup_singleton.
    + intros c. simpl. rewrite elem_of_app, list_elem_of_singleton.
      destruct (decide (c = next_ref w)) as [-> | Hne].
      * rewrite lookup_insert_eq. unfold new_cursor_closed. tauto.
      * rewrite lookup_insert_ne by congruence. rewrite <- Hto. tauto.
  - destruct (cursor_closed w !! c) eqn:Hex; [| split; assumption].
    rewrite Cursor_close_effect. simpl.
    destruct (discard_NoDup c _ Hnd) as [Hnd' Hgone]. split; [exact Hnd' |].
    intros c'. simpl. destruct (decide (c' = c)) as [-> | Hne].
    + rewrite lookup_insert_eq. split; [contradiction | discriminate].
    + rewrite lookup_insert_ne by congruence. rewrite <- Hto. split.
      * apply discard_subset.
      * apply discard_keeps_others. exact Hne.
  - destruct (closed w) eqn:Hopen.
    + unfold aclose, _aclose. rewrite Hopen. split; assumption.
    + rewrite (aclose_open_effect w Hopen). simpl. split; [apply NoDup_nil_2 |].
      intros c. simpl. rewrite mark_all_lookup. split.
      * intros H. apply elem_of_nil in H. contradiction.
      * case_bool_decide as Hin; [discriminate |].
        intros H. elim Hin. apply Hto. exact H.
  - unfold commit. destruct (closed w); split; assumption.
Qed.

(** X14. After any calls on a fresh connection the tracked cursors are
    exactly the open cursors, and none is tracked twice; so removing the
    first occurrence of a cursor removes the cursor. A cursor that
    [cursor()] returns is one that did not exist before, and it is tracked
    last. *)
Theorem tracked_cursors_are_the_open_cursors (ops : list Call) :
  let w := run ops new_connection in
  NoDup (_cursors w)
  /\ (forall c, c ∈ _cursors w <-> cursor_closed w !! c = Some false)
  /\ (forall c, c ∉ _cursors (snd (Cursor_close c w)))
  /\ forall c w',
       _cursor w = (inr c, w') ->
       cursor_closed w !! c = None
       /\ _cursors w' = (_cursors w ++ [c])%list
       /\ cursor_closed w' !! c = Some false.
Proof.
  intros w.
  assert (H : consistent w /\ tracks_open_cursors w).
  { subst w. generalize new_connection_consistent.
    assert (H0 : tracks_open_cursors new_connection).
    { split; [apply NoDup_nil_2 |]. intros c. simpl. rewrite lookup_empty.
      split; [intros H; apply elem_of_nil in H; contradiction | discriminate]. }
    revert H0. generalize new_connection.
    induction ops as [| op ops IH]; intros w0 H0 Hc; [split; assumption |].
    simpl. apply IH.
    - apply perform_tracks_open_cursors; assumption.
    - apply perform_consistent; assumption. }
  destruct H as [Hc [Hnd Hto]]. refine (conj Hnd (conj Hto (conj _ _))).
  - intros c. rewrite Cursor_close_effect. simpl.
    apply (discard_NoDup c _ Hnd).
  - intros c w'. unfold _cursor. destruct (closed w); [discriminate |].
    intros Hnew. injection Hnew as <- <-. simpl.
    refine (conj _ (conj eq_refl _)).
    + destruct (cursor_closed w !! next_ref w) eqn:Hex; [| reflexivity].
      pose proof (refs_allocated w Hc (next_ref w) (ex_intro _ _ Hex)). lia.
    + apply lookup_insert_eq.
Qed.

Lemma tracked_cursors_are_the_open_cursors_witness :
  let w := run [call_cursor; call_cursor_close 0%nat] new_connection in
  cursor_closed w !! 1%nat = None
  /\ _cursors (snd (_cursor w)) = (_cursors w ++ [1%nat])%list
  /\ cursor_closed (snd (_cursor w)) !! 1%nat = Some false.
Proof.
  intros w.
  destruct (tracked_cursors_are_the_open_cursors
              [call_cursor; call_cursor_close 0%nat]) as (_ & _ & _ & Hnew).
  apply (Hnew 1%nat (snd (_cursor w))). reflexivity.
Defined.

Lemma aclose_always_completes (w : World) :
  fst (aclose w) = inr tt
  /\ closed (snd (aclose w)) = true
  /\ client_closed (snd (aclose w)) = (client_closed w || negb (closed w)).
Proof.
  destruct (closed w) eqn:Hopen.
  - unfold aclose, _aclose. rewrite Hopen. simpl.
    rewrite orb_false_r. auto.
  - rewrite (aclose_open_effect w Hopen). simpl. rewrite orb_true_r. auto.
Qed.

Lemma perform_closed (w : World) (op : Call) :
  closed (perform w op)
  = (closed w || match op with call_aclose => true | _ => false end)
  /\ client_closed (perform w op)
     = (client_closed w
        || match op with call_aclose => negb (closed w) | _ => false end).
Proof.
  destruct op as [| c | |]; simpl.
  - unfold _cursor. destruct (closed w) eqn:Hc; simpl;
      rewrite ?Hc, !orb_false_r; auto.
  - destruct (cursor_closed w !! c); [rewrite Cursor_close_effect |];
      simpl; rewrite !orb_false_r; auto.
  - destruct (aclose_always_completes w) as (_ & -> & ->).
    rewrite orb_true_r. auto.
  - unfold commit. destruct (closed w) eqn:Hc; simpl;
      rewrite ?Hc, !orb_false_r; auto.
Qed.

(** X15. After any calls on a fresh connection, the connection is closed
    exactly when [aclose] was among them, and its client is torn down
    exactly when the connection is closed: closing cursors, creating them
    and committing never close a connection. So [commit] raises
    [ConnectionClosedError] exactly when [aclose] was called before, and
    it never changes the connection. *)
Theorem closed_exactly_after_aclose (ops : list Call) :
  let w := run ops new_connection in
  (closed w = true <-> call_aclose ∈ ops)
  /\ client_closed w = closed w
  /\ (call_aclose ∈ ops ->
      commit w
      = (inl (ConnectionClosedError "Unable to commit: connection closed"),
         w))
  /\ (call_aclose ∉ ops -> commit w = (inr tt, w)).
Proof.
  intros w. subst w.
  assert (H : forall w0,
             (closed (run ops w0) = true
              <-> closed w0 = true \/ call_aclose ∈ ops)
             /\ (client_closed w0 = closed w0 ->
                 client_closed (run ops w0) = closed (run ops w0))).
  { induction ops as [| op ops IH]; intros w0.
    - simpl. split; [| auto]. split; [auto |].
      intros [H | H]; [exact H | apply elem_of_nil in H; contradiction].
    - simpl. destruct (IH (perform w0 op)) as [IHc IHk].
      destruct (perform_closed w0 op) as [Hc Hk]. split.
      + rewrite IHc, Hc, orb_true_iff, elem_of_cons.
        destruct op; split; intros H; try tauto;
          try (destruct H as [[H | H] | H]; auto; discriminate);
          try (destruct H as [H | [H | H]]; auto; discriminate).
      + intros Heq. apply IHk. rewrite Hc, Hk, Heq.
        destruct op, (closed w0); reflexivity. }
  destruct (H new_connection) as [Hc Hk].
  assert (Hiff : closed (run ops new_connection) = true <-> call_aclose ∈ ops).
  { rewrite Hc. simpl.
    split; [intros [H0 | H0]; [discriminate | exact H0] | auto]. }
  refine (conj Hiff (conj (Hk eq_refl) (conj _ _))).
  - intros Hin. unfold commit. rewrite (proj2 Hiff Hin). reflexivity.
  - intros Hn. unfold commit.
    destruct (closed (run ops new_connection)) eqn:Hcl; [| reflexivity].
    elim Hn. apply Hiff. reflexivity.
Qed.

Lemma closed_exactly_after_aclose_witness :
  let w := run [call_cursor; call_aclose] new_connection in
  commit w
  = (inl (ConnectionClosedError "Unable to commit: connection closed"), w).
Proof.
  intros w.
  destruct (closed_exactly_after_aclose [call_cursor; call_aclose])
    as (_ & _ & Hraise & _).
  apply Hraise. apply elem_of_cons. right. apply elem_of_cons. left.
  reflexivity.
Defined.

Section AnyCursorClass.

Variable cursor_close : cursor_ref -> M World unit.

Hypothesis close_never_raises :
  forall c w, fst (cursor_close c w) = inr tt.

Lemma close_all_completes (cursors : list cursor_ref) (w : World) :
  fst (close_all cursor_close cursors w) = inr tt.
Proof.
  revert w. induction cursors as [| c rest IH]; intros w; [reflexivity |].
  simpl. unfold bind. pose proof (close_never_raises c w) as Hc.
  destruct (cursor_close c w) as [[e | []] w']; [discriminate |].
  apply IH.
Qed.

End AnyCursorClass.

(** X16. For every cursor class whose [close] never raises, [_aclose]
    completes and leaves the connection marked closed with its client torn
    down, whatever else those [close] methods do to the connection. *)
Theorem _aclose_completes_for_quiet_cursors
    (cursor_close : cursor_ref -> M World unit) (w : World) :
  (forall c w', fst (cursor_close c w') = inr tt) ->
  fst (_aclose cursor_close w) = inr tt
  /\ closed (snd (_aclose cursor_close w)) = true
  /\ (closed w = false -> client_closed (snd (_aclose cursor_close w)) = true).
Proof.
  intros Hquiet. unfold _aclose. destruct (closed w) eqn:Hopen.
  - simpl. refine (conj eq_refl (conj Hopen _)). discriminate.
  - unfold bind.
    pose proof (close_all_completes cursor_close Hquiet (_cursors w) w) as Hall.
    destruct (close_all cursor_close (_cursors w) w) as [[e | []] w'];
      [discriminate |].
    simpl. auto.
Qed.

Lemma _aclose_completes_for_quiet_cursors_witness :
  fst (_aclose Cursor_close (run [call_cursor; call_cursor] new_connection))
  = inr tt.
Proof.
  apply (_aclose_completes_for_quiet_cursors Cursor_close
           (run [call_cursor; call_cursor] new_connection)).
  intros c w'. rewrite Cursor_close_effect. reflexivity.
Defined.

(** X17. [async with connection]: entering a closed connection raises
    [ConnectionClosedError] and the block is not run; on an open connection
    the block runs, the connection is closed when it is left, by a return
    or by an exception alike, and the outcome of the block, its exception
    included, is the outcome of the whole statement. *)
Theorem async_with_closes_and_reraises {A : Type} (body : M World A)
    (w : World) :
  (closed w = true ->
   forall cursor_close,
     async_with cursor_close body w
     = (inl (ConnectionClosedError "Connection is already closed"), w))
  /\ (closed w = false ->
      async_with Cursor_close body w
      = (fst (body w), snd (aclose (snd (body w))))
      /\ closed (snd (async_with Cursor_close body w)) = true).
Proof.
  split.
  - intros Hc cursor_close. unfold async_with, __aenter__. rewrite Hc.
    reflexivity.
  - intros Hopen.
    assert (Heq : async_with Cursor_close body w
                  = (fst (body w), snd (aclose (snd (body w))))).
    { unfold async_with, __aenter__, __aexit__. rewrite Hopen.
      destruct (body w) as [[e | a] w2]; simpl;
        destruct (aclose_always_completes w2) as (Hok & _ & _);
        fold aclose; destruct (aclose w2) as [[e' | []] w3];
        simpl in Hok; try discriminate; reflexivity. }
    split; [exact Heq |]. rewrite Heq. simpl.
    apply aclose_always_completes.
Qed.

Lemma async_with_closes_and_reraises_witness :
  let final := async_with Cursor_close failing_block new_connection in
  fst final = inl (RuntimeError "query failed")
  /\ closed (snd final) = true
  /\ _cursors (snd final) = []
  /\ cursor_closed (snd final) !! 0%nat = Some true.
Proof.
  intros final.
  destruct (proj2 (async_with_closes_and_reraises failing_block
                     new_connection) eq_refl) as [Heq Hclosed].
  subst final. rewrite Heq. repeat split.
Defined.

(** ** Engine revisions *)

(** X18. [get_by_engine_revision_key] never looks at the status code: two
    answers with the same body give the same outcome, and an answer whose
    JSON object has no key "engine_revision" raises [KeyError] for that
    key, an error answer included. *)
Theorem get_by_engine_revision_key_ignores_status {ER : Type}
    (parse_obj : json -> result ER) (http_get : string -> result Response)
    (k : EngineRevisionKey) :
  (forall http_get',
     same_body (http_get (engine_revision_url k))
               (http_get' (engine_revision_url k)) ->
     get_by_engine_revision_key ER parse_obj http_get' k
     = get_by_engine_revision_key ER parse_obj http_get k)
  /\ (forall r m,
        http_get (engine_revision_url k) = inr r ->
        body r = Some (JObj m) ->
        m !! "engine_revision" = None ->
        get_by_engine_revision_key ER parse_obj http_get k
        = inl (KeyError "engine_revision")).
Proof.
  unfold get_by_engine_revision_key, response_json. split.
  - intros http_get' Hsame. unfold same_body in Hsame.
    destruct (http_get (engine_revision_url k)) as [e | r],
      (http_get' (engine_revision_url k)) as [e' | r']; try contradiction.
    + rewrite Hsame. reflexivity.
    + rewrite Hsame. reflexivity.
  - intros r m Hr Hb Hm. rewrite Hr, Hb. simpl. rewrite Hm. reflexivity.
Qed.

Lemma get_by_engine_revision_key_ignores_status_witness :
  get_by_engine_revision_key json inr revisions_not_found
    {| key_account_id := "acc"; key_engine_id := "eid";
       key_engine_revision_id := "rev" |}
  = inl (KeyError "engine_revision").
Proof.
  apply (proj2 (get_by_engine_revision_key_ignores_status inr
                  revisions_not_found _)
           {| status_code := 404;
              body := Some (obj1 "error" (JStr "not found")) |}
           {[ "error" := JStr "not found" ]}); reflexivity.
Defined.

Lemma split_at_first_slash (a a' t t' : string) :
  no_slash a = true -> no_slash a' = true ->
  a ++ String (Ascii.ascii_of_nat 47) t = a' ++ String (Ascii.ascii_of_nat 47) t' ->
  a = a' /\ t = t'.
Proof.
  revert a'. induction a as [| c a IH]; intros a' Ha Ha' H.
  - destruct a' as [| c' a']; simpl in *.
    + injection H as <-. auto.
    + injection H as <- _. rewrite Ascii.eqb_refl in Ha'. discriminate.
  - destruct a' as [| c' a']; simpl in *.
    + injection H as -> _. rewrite Ascii.eqb_refl in Ha. discriminate.
    + injection H as -> H.
      apply andb_prop in Ha as [_ Ha]. apply andb_prop in Ha' as [_ Ha'].
      destruct (IH a' Ha Ha' H) as [-> ->]. auto.
Qed.

(** X19. Keys whose account id and engine id hold no slash are told apart
    by their URL: two such keys with the same URL are the same key. *)
Theorem engine_revision_url_injective (k1 k2 : EngineRevisionKey) :
  no_slash (key_account_id k1) = true ->
  no_slash (key_engine_id k1) = true ->
  no_slash (key_account_id k2) = true ->
  no_slash (key_engine_id k2) = true ->
  engine_revision_url k1 = engine_revision_url k2 ->
  k1 = k2.
Proof.
  destruct k1 as [a1 e1 r1], k2 as [a2 e2 r2]. unfold engine_revision_url.
  simpl. intros Ha1 He1 Ha2 He2 H.
  injection H as H.
  apply (split_at_first_slash a1 a2) in H as [-> H]; try assumption.
  injection H as H.
  apply (split_at_first_slash e1 e2) in H as [-> H]; try assumption.
  injection H as ->. reflexivity.
Qed.

Lemma engine_revision_url_injective_witness :
  {| key_account_id := "acc"; key_engine_id := "eid";
     key_engine_revision_id := "rev" |}
  = {| key_account_id := "acc"; key_engine_id := "eid";
       key_engine_revision_id := "rev" |}.
Proof.
  apply (engine_revision_url_injective
           {| key_account_id := "acc"; key_engine_id := "eid";
              key_engine_revision_id := "rev" |}
           {| key_account_id := "acc"; key_engine_id := "eid";
              key_engine_revision_id := "rev" |}); reflexivity.
Defined.

(** With a slash in an id two different keys can share a URL. *)
Example engine_revision_url_collision :
  engine_revision_url {| key_account_id := "a/engines/b";
                         key_engine_id := "c";
                         key_engine_revision_id := "r" |}
  = engine_revision_url {| key_account_id := "a";
                           key_engine_id := "b/engines/c";
                           key_engine_revision_id := "r" |}.
Proof. reflexivity. Qed.

(** ** Further properties of resolution *)

(** X20. The comprehension over the edges keeps, in order, the nodes whose
    "engine_is_default" is truthy in Python's sense, and it stops at the
    first edge without a node or without the flag: the error of that edge is
    raised whatever the edges after it are. *)
Theorem default_bindings_selects_flagged (items : list json)
    (nodes : list (json * json)) :
  Forall2 (fun b nf => getitem b "node" = inr nf.1
                       /\ getitem nf.1 "engine_is_default" = inr nf.2)
          items nodes ->
  default_bindings items
  = inr (fst <$> base.filter (fun nf => truthy nf.2 = true) nodes)
  /\ forall bad rest e,
       getitem2 bad "node" "engine_is_default" = inl e ->
       default_bindings (items ++ bad :: rest) = inl e.
Proof.
  intros Hall. split.
  - induction Hall as [| b [node flag] items nodes [Hn Hf] _ IH];
      [reflexivity |].
    simpl in *. rewrite Hn, Hf, IH. rewrite filter_cons. simpl.
    destruct (truthy flag); simpl.
    + destruct (decide (true = true)); [reflexivity | congruence].
    + destruct (decide (false = true)); [discriminate | reflexivity].
  - intros bad rest e Hbad.
    induction Hall as [| b [node flag] items nodes [Hn Hf] _ IH].
    + simpl. unfold getitem2 in Hbad.
      destruct (getitem bad "node") as [e' | node]; [congruence |].
      rewrite Hbad. reflexivity.
    + simpl in *. rewrite Hn, Hf, IH. destruct (truthy flag); reflexivity.
Qed.

Lemma default_bindings_selects_flagged_witness :
  default_bindings
    [binding_flagged "a" (JNum 1); binding_flagged "b" JNull;
     binding_flagged "c" (JStr ""); binding_flagged "d" (JBool true)]
  = inr [node_flagged "a" (JNum 1); node_flagged "d" (JBool true)].
Proof.
  apply (default_bindings_selects_flagged _
           [(node_flagged "a" (JNum 1), JNum 1);
            (node_flagged "b" JNull, JNull);
            (node_flagged "c" (JStr ""), JStr "");
            (node_flagged "d" (JBool true), JBool true)]).
  repeat constructor.
Defined.

(** X21. When its four lookups succeed, the database-default path answers
    the endpoint read from the last one and has sent exactly the account
    lookup, the database lookup, the bindings lookup and the endpoint fetch
    for the first default binding, in this order. *)
Theorem default_resolution_success (transport : Transport) (db : string)
    (acct : option string) (s : ClientState) (a did eid url first : json)
    (rest : list json) :
  fst (account_id transport acct no_traffic) = inr a ->
  fetch_field transport (DatabaseByName a db) "database_id" "database_id"
    = inr did ->
  fetch_defaults transport a did = inr (first :: rest) ->
  getitem2 first "id" "engine_id" = inr eid ->
  fetch_field transport (EngineById a eid) "engine" "endpoint" = inr url ->
  _get_database_default_engine_url transport db acct s
  = (inr url,
     {| account_id_cache := Some a;
        sent := sent s ++ [AccountByName acct; DatabaseByName a db;
                           Bindings a did; EngineById a eid] |}).
Proof.
  intros Ha Hd Hb Hi He.
  unfold _get_database_default_engine_url, with_new_client, try_except.
  rewrite _get_database_default_engine_url_body_run by reflexivity.
  rewrite Ha, Hd. cbv zeta. rewrite Hb, Hi, He. reflexivity.
Qed.

Lemma default_resolution_success_witness :
  _get_database_default_engine_url backend_two_defaults "db1" None no_traffic
  = (inr (JStr "first.example"),
     {| account_id_cache := Some (JStr "acc");
        sent := [AccountByName None; DatabaseByName (JStr "acc") "db1";
                 Bindings (JStr "acc") (JStr "did");
                 EngineById (JStr "acc") (JStr "first")] |}).
Proof.
  apply (default_resolution_success backend_two_defaults "db1" None
           no_traffic (JStr "acc") (JStr "did") (JStr "first")
           (JStr "first.example") (node_flagged "first" (JBool true))
           [node_flagged "second" (JBool true)]); reflexivity.
Defined.

(** X22. When the account lookup answers 404, both resolution paths raise
    [AccountNotFoundError] naming the account, not [InterfaceError] and not
    [FireboltEngineError], and nothing is sent after that one request. *)
Theorem account_not_found_on_both_paths (transport : Transport)
    (name db : string) (acct : option string) (s : ClientState)
    (r : Response) :
  transport (AccountByName acct) = inr r ->
  status_code r = 404 ->
  _resolve_engine_url transport name acct s
    = (inl (AccountNotFoundError acct),
       client_after None s [AccountByName acct])
  /\ _get_database_default_engine_url transport db acct s
     = (inl (AccountNotFoundError acct),
        client_after None s [AccountByName acct]).
Proof.
  intros Hr H404.
  assert (Ha : fst (account_id transport acct no_traffic)
               = inl (AccountNotFoundError acct)).
  { rewrite (account_lookup_outcomes_aux transport acct r Hr). rewrite H404.
    reflexivity. }
  split.
  - unfold _resolve_engine_url, with_new_client, try_except.
    rewrite _resolve_engine_url_body_run by reflexivity. rewrite Ha.
    reflexivity.
  - unfold _get_database_default_engine_url, with_new_client, try_except.
    rewrite _get_database_default_engine_url_body_run by reflexivity.
    rewrite Ha. reflexivity.
Qed.

Lemma account_not_found_on_both_paths_witness :
  _resolve_engine_url backend_no_account "e1" (Some "a1") no_traffic
  = (inl (AccountNotFoundError (Some "a1")),
     client_after None no_traffic [AccountByName (Some "a1")]).
Proof.
  apply (account_not_found_on_both_paths backend_no_account "e1" "db1"
           (Some "a1") no_traffic
           {| status_code := 404; body := Some (obj1 "id" (JStr "acc")) |});
    reflexivity.
Defined.
